(** * randonious_the_adventurer: the aggregator loop, the HuggingChat
      adapter and the logger hub, embedded from the Python sources

    - [Py]          exceptions and results, the state-and-exception monad
    - [Assistant]   assistant.py: [Prompt]
    - [LoggerHub]   logger.py: levels, messages, subscribe and log
    - [HuggingChat] huggingchat.py: histories, prompt building, throttle,
                    session start and [chat]
    - [Adventurer]  adventurer.py: the queue and [_conversation_loop] *)

From Stdlib Require Import Ascii String ZArith.
From stdpp Require Import gmap strings list pretty.

Open Scope string_scope.
Open Scope list_scope.

(** ** Python results: a call returns a value or raises *)

Module Py.

(** The instances of [Exception] that the sources can meet. *)
Inductive PyExc : Type :=
| TypeError (msg : string)
| AttributeError (msg : string)
| KeyError (msg : string)
| ConnectionError (msg : string)
| JSONDecodeError (msg : string)
| Exception (msg : string).

#[global] Instance PyExc_eq_dec : EqDecision PyExc.
Proof. solve_decision. Defined.

Inductive result (A : Type) : Type :=
| Ok (a : A)
| Raise (e : PyExc).
Arguments Ok {A} a.
Arguments Raise {A} e.

(** A method of an object of state [S]: it mutates the state and returns or
    raises.  The state after a raise is the state at the raise. *)
Definition M (S A : Type) : Type := S -> result A * S.

Definition ret {S A} (a : A) : M S A := fun s => (Ok a, s).

Definition raise {S A} (e : PyExc) : M S A := fun s => (Raise e, s).

Definition bind {S A B} (m : M S A) (k : A -> M S B) : M S B :=
  fun s => match m s with
           | (Ok a, s') => k a s'
           | (Raise e, s') => (Raise e, s')
           end.

Definition gets {S A} (f : S -> A) : M S A := fun s => (Ok (f s), s).

Definition modify {S} (f : S -> S) : M S unit := fun s => (Ok tt, f s).

(** [try: body / except Exception as e: handler e] *)
Definition try_except {S A} (body : M S A) (handler : PyExc -> M S A) : M S A :=
  fun s => match body s with
           | (Ok a, s') => (Ok a, s')
           | (Raise e, s') => handler e s'
           end.

(** [try: body / finally: final; return ...]: a [return] inside the
    [finally] suite discards what [body] returned or raised; [final] sees
    the state [body] left. *)
Definition finally_return {S A B} (body : M S A) (final : M S B) : M S B :=
  fun s => final (snd (body s)).

End Py.

Import Py.

Notation "x <- m ;; k" := (Py.bind m (fun x => k))
  (at level 20, m at level 99, k at level 200, format "'[v' x  <-  m  ;; '/' k ']'").
Notation "m ;;; k" := (Py.bind m (fun _ => k))
  (at level 100, k at level 200, right associativity, format "'[v' m  ;;; '/' k ']'").

(** ** assistant.py *)

Module Assistant.

Record Prompt : Type := { author : string; content : string }.

#[global] Instance Prompt_eq_dec : EqDecision Prompt.
Proof. solve_decision. Defined.

End Assistant.

Import Assistant.

(** ** logger.py *)

Module LoggerHub.

Inductive LogLevel : Type := Info | Debug | Error | All.

#[global] Instance LogLevel_eq_dec : EqDecision LogLevel.
Proof. solve_decision. Defined.

Record LogMessage : Type := {
  level : LogLevel;
  sender : string;
  content : string;
  error : option PyExc;
  long_content : bool
}.

#[global] Instance LogMessage_eq_dec : EqDecision LogMessage.
Proof. solve_decision. Defined.

(** A subscriber is a hashable callable; the sets of the registry compare
    callables by identity, which the model names by a number. *)
Definition Callback : Type := nat.

(** [self.subscribers = {level: set() for level in LogLevel}]: a dict whose
    keys are exactly the four levels, so each key is a field. *)
Record Logger : Type := {
  subs_Info : gset Callback;
  subs_Debug : gset Callback;
  subs_Error : gset Callback;
  subs_All : gset Callback
}.

(** [self.subscribers[level]] *)
Definition subscribers (lg : Logger) (lvl : LogLevel) : gset Callback :=
  match lvl with
  | Info => subs_Info lg
  | Debug => subs_Debug lg
  | Error => subs_Error lg
  | All => subs_All lg
  end.

(** [self.subscribers[level].add(cb)] *)
Definition subscribe (cb : Callback) (lvl : LogLevel) (lg : Logger) : Logger :=
  match lvl with
  | Info => {| subs_Info := subs_Info lg ∪ {[cb]}; subs_Debug := subs_Debug lg;
               subs_Error := subs_Error lg; subs_All := subs_All lg |}
  | Debug => {| subs_Info := subs_Info lg; subs_Debug := subs_Debug lg ∪ {[cb]};
                subs_Error := subs_Error lg; subs_All := subs_All lg |}
  | Error => {| subs_Info := subs_Info lg; subs_Debug := subs_Debug lg;
                subs_Error := subs_Error lg ∪ {[cb]}; subs_All := subs_All lg |}
  | All => {| subs_Info := subs_Info lg; subs_Debug := subs_Debug lg;
              subs_Error := subs_Error lg; subs_All := subs_All lg ∪ {[cb]} |}
  end.

(** The identity of [Logger.console_logger]. *)
Definition console_logger : Callback := 0.

(** [Logger.__init__] *)
Definition init : Logger :=
  subscribe console_logger All
    {| subs_Info := ∅; subs_Debug := ∅; subs_Error := ∅; subs_All := ∅ |}.

(** What awaiting a subscriber does during one [log]: [None] when the
    await returns, [Some e] when it raises [e] (the Discord subscriber of
    bot.py awaits [channel.send], which can fail). *)
Definition Awaits : Type := Callback -> option PyExc.

(** [for cb in cbs: await cb(message)]: how the loop ends and the callbacks
    it awaited, one element per call. The loop has no [try]: the first
    await that raises ends it, and the exception leaves [log]. *)
Fixpoint await_each (raises : Awaits) (cbs : list Callback)
    : result unit * list Callback :=
  match cbs with
  | [] => (Ok tt, [])
  | cb :: rest =>
      match raises cb with
      | Some e => (Raise e, [cb])
      | None => (fst (await_each raises rest), cb :: snd (await_each raises rest))
      end
  end.

(** [self.subscribers[message.level].union(self.subscribers[LogLevel.All])] *)
Definition audience (message : LogMessage) (lg : Logger) : gset Callback :=
  subscribers lg (level message) ∪ subscribers lg All.

(** [log]: the loop over the union set. Python leaves the iteration order
    of a set open; the model takes that of [elements]. *)
Definition log (raises : Awaits) (message : LogMessage) (lg : Logger)
    : result unit * list Callback :=
  await_each raises (elements (audience message lg)).

(** The callbacks [log] awaits for [message], in order. *)
Definition awaited (raises : Awaits) (message : LogMessage) (lg : Logger)
    : list Callback :=
  snd (log raises message lg).

(** How many times [log] awaits [cb] for [message]. *)
Definition calls (raises : Awaits) (cb : Callback) (message : LogMessage)
    (lg : Logger) : nat :=
  length (filter (fun c => c = cb) (awaited raises message lg)).

(** The callbacks that the loop over [cbs] reaches before [cb]. *)
Fixpoint earlier (cb : Callback) (cbs : list Callback) : list Callback :=
  match cbs with
  | [] => []
  | c :: rest => if decide (c = cb) then [] else c :: earlier cb rest
  end.

(** No await raises. *)
Definition all_return : Awaits := fun _ => None.

(** No await but that of [cb] can raise; [cb] ends as [e] says. *)
Definition only (cb : Callback) (e : option PyExc) : Awaits :=
  fun c => if decide (c = cb) then e else None.

End LoggerHub.

Import LoggerHub.

(** ** huggingchat.py *)

Module HuggingChat.

Definition newline : string := String "010"%char EmptyString.

Definition DOMAIN : string := "https://huggingface.co".
Definition USER_MESSAGE_TOKEN : string := "<|user|>".
Definition ASSISTANT_MESSAGE_TOKEN : string := "<|assistant|>".
Definition SEP_TOKEN : string := "</s>".
Definition PREPROMPT_SEP : string := newline +:+ "-----" +:+ newline.
Definition LOG_NAME : string := "HuggingChat".

Module MessageTemplates.
Definition post_failed : string := "Failed to post request to HuggingChat".
Definition conn_failed : string := "Failed to establish connection to HuggingChat".
(** ["Failed to create new chat ({i}/{n})".format(i=i, n=n)] *)
Definition new_chat_failed (i n : nat) : string :=
  "Failed to create new chat (" +:+ pretty i +:+ "/" +:+ pretty n +:+ ")".
End MessageTemplates.

Module Parameters.
Definition max_new_tokens : Z := 1024.
Definition truncate : Z := 1024.
Definition top_k : Z := 50.
Definition stop : list string := [SEP_TOKEN].
Definition stream : bool := true.
End Parameters.

(** Times are microseconds, the resolution of [datetime]; a [timedelta] is
    their difference. *)
Definition milliseconds (n : Z) : Z := (1000 * n)%Z.

(** What the adapter sends out. *)
Inductive Request : Type :=
| Probe (url : string)                      (* session.get(base_url) *)
| NewConversation (url : string)            (* session.post(api_route, ...) *)
| Exchange (url : string) (inputs : string) (* session.post(chat_url, ...) *).

#[global] Instance Request_eq_dec : EqDecision Request.
Proof. solve_decision. Defined.

(** The attributes of a [HuggingChat] object.  [__init__] sets the two
    throttle attributes only; the histories and the preprompt are assigned
    by [_clear_prompts] and the conversation id and url by [_new_chat], so
    the last two are optional. *)
Record Adapter : Type := {
  _throttle_time : Z;
  _time_of_last_prompt : Z;
  _raw_history : list Prompt;
  _chat_history : list string;
  _split_history : list string;
  _preprompt : string;
  _chat_id : option string;
  _chat_url : option string
}.

(** What the adapter acts on besides itself: the wall clock read by
    [datetime.now()], the messages handed to the logger hub and the
    requests put on the wire, each with the time it was issued at. *)
Record World : Type := {
  clock : Z;
  logged : list LogMessage;
  wire : list (Z * Request)
}.

Record Run : Type := { obj : Adapter; env : World }.

Definition on_obj (f : Adapter -> Adapter) (r : Run) : Run :=
  {| obj := f (obj r); env := env r |}.
Definition on_env (f : World -> World) (r : Run) : Run :=
  {| obj := obj r; env := f (env r) |}.

Definition set_time_of_last_prompt (t : Z) (o : Adapter) : Adapter :=
  {| _throttle_time := _throttle_time o; _time_of_last_prompt := t;
     _raw_history := _raw_history o; _chat_history := _chat_history o;
     _split_history := _split_history o; _preprompt := _preprompt o;
     _chat_id := _chat_id o; _chat_url := _chat_url o |}.
Definition set_raw_history (h : list Prompt) (o : Adapter) : Adapter :=
  {| _throttle_time := _throttle_time o;
     _time_of_last_prompt := _time_of_last_prompt o;
     _raw_history := h; _chat_history := _chat_history o;
     _split_history := _split_history o; _preprompt := _preprompt o;
     _chat_id := _chat_id o; _chat_url := _chat_url o |}.
Definition set_chat_history (h : list string) (o : Adapter) : Adapter :=
  {| _throttle_time := _throttle_time o;
     _time_of_last_prompt := _time_of_last_prompt o;
     _raw_history := _raw_history o; _chat_history := h;
     _split_history := _split_history o; _preprompt := _preprompt o;
     _chat_id := _chat_id o; _chat_url := _chat_url o |}.
Definition set_split_history (h : list string) (o : Adapter) : Adapter :=
  {| _throttle_time := _throttle_time o;
     _time_of_last_prompt := _time_of_last_prompt o;
     _raw_history := _raw_history o; _chat_history := _chat_history o;
     _split_history := h; _preprompt := _preprompt o;
     _chat_id := _chat_id o; _chat_url := _chat_url o |}.
Definition set_preprompt_attr (p : string) (o : Adapter) : Adapter :=
  {| _throttle_time := _throttle_time o;
     _time_of_last_prompt := _time_of_last_prompt o;
     _raw_history := _raw_history o; _chat_history := _chat_history o;
     _split_history := _split_history o; _preprompt := p;
     _chat_id := _chat_id o; _chat_url := _chat_url o |}.
Definition set_chat (id url : string) (o : Adapter) : Adapter :=
  {| _throttle_time := _throttle_time o;
     _time_of_last_prompt := _time_of_last_prompt o;
     _raw_history := _raw_history o; _chat_history := _chat_history o;
     _split_history := _split_history o; _preprompt := _preprompt o;
     _chat_id := Some id; _chat_url := Some url |}.

Definition tick (d : Z) (w : World) : World :=
  {| clock := (clock w + d)%Z; logged := logged w; wire := wire w |}.
Definition emit (m : LogMessage) (w : World) : World :=
  {| clock := clock w; logged := logged w ++ [m]; wire := wire w |}.
Definition transmit (q : Request) (w : World) : World :=
  {| clock := clock w; logged := logged w; wire := wire w ++ [(clock w, q)] |}.

Definition _base_url : string := DOMAIN +:+ "/chat".
Definition _api_route : string := _base_url +:+ "/conversation".

(** [__init__]: the histories start empty here although Python leaves the
    attributes undefined until [_clear_prompts]; nothing reads them before. *)
Definition __init__ (w : World) : Adapter :=
  {| _throttle_time := milliseconds 500;
     _time_of_last_prompt := clock w;
     _raw_history := []; _chat_history := []; _split_history := [];
     _preprompt := ""; _chat_id := None; _chat_url := None |}.

Definition set_preprompt (preprompt : string) : M Run unit :=
  modify (on_obj (set_preprompt_attr preprompt)).

(** [_log]: the message the adapter hands to [Logger.log]. *)
Definition _log (content : string) (lvl : LogLevel) (err : option PyExc)
    (long : bool) : M Run unit :=
  modify (on_env (emit {| level := lvl; sender := LOG_NAME; content := content;
                          error := err; long_content := long |})).

(** [asyncio.sleep(d)]: the coroutine resumes [d] later or, by [over], later
    than that. *)
Definition asyncio_sleep (d : Z) (over : N) : M Run unit :=
  modify (on_env (tick (d + Z.of_N over))).

(** [_throttle] *)
Definition _throttle (over : N) : M Run unit :=
  dt <- gets (fun r => (clock (env r) - _time_of_last_prompt (obj r))%Z) ;;
  tt_ <- gets (fun r => _throttle_time (obj r)) ;;
  (if (dt <? tt_)%Z then asyncio_sleep (tt_ - dt) over else ret tt) ;;;
  modify (fun r => on_obj (set_time_of_last_prompt (clock (env r))) r).

(** [str.split(sep)] for a separator of one character: empty pieces are
    kept, and the result is never empty. *)
Fixpoint split (sep : ascii) (s : string) : list string :=
  match s with
  | EmptyString => [EmptyString]
  | String a s' =>
      if decide (a = sep) then EmptyString :: split sep s'
      else match split sep s' with
           | w :: ws => String a w :: ws
           | [] => [String a EmptyString]
           end
  end.

Definition space : ascii := " "%char.

(** [_format_prompts] *)
Definition format_prompt (prompt : Prompt) : string :=
  let token := if decide (author prompt = "assistant")
               then ASSISTANT_MESSAGE_TOKEN else USER_MESSAGE_TOKEN in
  token +:+ Assistant.content prompt +:+ SEP_TOKEN.

Definition _format_prompts (prompts : list Prompt) : list string :=
  foldl (fun res prompt => res ++ [format_prompt prompt]) [] prompts.

(** [_update_history].  [list.extend] takes exactly one argument, so the
    starred call raises [TypeError] unless [new_splits] has one element. *)
Definition _update_history (prompts : list Prompt) : M Run unit :=
  modify (on_obj (fun o => set_raw_history (_raw_history o ++ prompts) o)) ;;;
  modify (on_obj (set_chat_history (_format_prompts prompts))) ;;;
  new_splits <- gets (fun r => map (split space) (_chat_history (obj r))) ;;
  match new_splits with
  | [words] =>
      modify (on_obj (fun o => set_split_history (_split_history o ++ words) o))
  | _ => raise (TypeError "list.extend() takes exactly one argument")
  end.

(** [l[start:]] *)
Definition slice_from {A} (start : Z) (l : list A) : list A :=
  let len := Z.of_nat (length l) in
  let i := if (start <? 0)%Z then Z.max (len + start) 0 else Z.min start len in
  drop (Z.to_nat i) l.

(** [_build_prompt] *)
Definition _build_prompt (o : Adapter) : string :=
  let preprompt := _preprompt o +:+ PREPROMPT_SEP in
  let prompt_body :=
    String.concat " " (slice_from (- Parameters.max_new_tokens) (_split_history o)) in
  let prompt_body := prompt_body +:+ ASSISTANT_MESSAGE_TOKEN in
  preprompt +:+ prompt_body.

(** *** The backend, as the adapter meets it *)

(** One line of the streamed body after [line.decode] and
    [json.loads(resp_line[1:-1])]: either of the two raises, or an object
    comes out, here with its string-valued keys. *)
Inductive StreamLine : Type :=
| Garbled (e : PyExc)
| Obj (o : gmap string string).

Record Response : Type := { status_code : Z; iter_lines : list StreamLine }.

(** What one [session.post] of an exchange meets: the call raises or a
    response arrives, [rtt] after the request was issued. *)
Record Post : Type := {
  posted : result Response;
  rtt : N;
  oversleep : N
}.

(** What one [session.post] for a new conversation meets; [conversation]
    is the outcome of the post followed by
    [json.loads(resp.text)["conversationId"]]. *)
Record NewChatPost : Type := {
  conversation : result string;
  new_rtt : N;
  new_oversleep : N
}.

(** What [session.get(base_url)] meets. *)
Record ProbeGet : Type := { probed : option PyExc; probe_rtt : N }.

(** A blocking call of the [requests] session: the request is on the wire
    at the current time and the call ends [d] later. *)
Definition session_call {A} (q : Request) (d : N) (outcome : result A) : M Run A :=
  modify (on_env (transmit q)) ;;;
  modify (on_env (tick (Z.of_N d))) ;;;
  match outcome with
  | Ok a => ret a
  | Raise e => raise e
  end.

(** [self._chat_url]: [AttributeError] while no conversation was created. *)
Definition get_chat_url : M Run string :=
  url <- gets (fun r => _chat_url (obj r)) ;;
  match url with
  | Some u => ret u
  | None => raise (AttributeError "'HuggingChat' object has no attribute '_chat_url'")
  end.

(** [_set_session] *)
Definition _set_session (net : ProbeGet) : M Run unit :=
  try_except
    (session_call (Probe _base_url) (probe_rtt net)
       (match probed net with Some e => Raise e | None => Ok tt end))
    (fun e =>
       _log MessageTemplates.conn_failed Error (Some e) false ;;;
       raise e).

(** What the body of a loop did: it fell through to the next iteration, or
    it executed [return]. *)
Inductive Flow : Type := Next | Return.

(** [for i in range(n): body i], from [i]. *)
Fixpoint for_range {St} (body : nat -> M St Flow) (i n : nat) : M St unit :=
  match n with
  | 0 => ret tt
  | S n' =>
      flow <- body i ;;
      match flow with
      | Next => for_range body (S i) n'
      | Return => ret tt
      end
  end.

(** The body of the loop of [_new_chat]: the [return] stands in the
    [finally] suite. *)
Definition _new_chat_body (tries : nat) (net : nat -> NewChatPost) (i : nat)
    : M Run Flow :=
  finally_return
    (try_except
       (id <- session_call (NewConversation _api_route) (new_rtt (net i))
                (conversation (net i)) ;;
        modify (on_obj (set_chat id (_api_route +:+ "/" +:+ id))))
       (fun e =>
          _log (MessageTemplates.new_chat_failed (i + 1) tries) Error (Some e) false))
    (_throttle (new_oversleep (net i)) ;;;
     ret Return).

(** [_new_chat]; [net i] is what the post of iteration [i] would meet. *)
Definition _new_chat (net : nat -> NewChatPost) : M Run unit :=
  let tries := 3 in
  for_range (_new_chat_body tries net) 0 tries.

(** [_parse_response], the loop over [resp.iter_lines()]. *)
Fixpoint parse_lines (lines : list StreamLine) (out : string) : M Run string :=
  match lines with
  | [] => ret out
  | Garbled e :: _ => raise e
  | Obj o :: rest =>
      match o !! "generated_text" with
      | Some text => parse_lines rest (out +:+ text)
      | None =>
          match o !! "error" with
          | Some err => raise (Exception err)
          | None => parse_lines rest out
          end
      end
  end.

Definition _parse_response (resp : Response) : M Run string :=
  (if decide (status_code resp = 200%Z) then ret tt
   else _log (MessageTemplates.post_failed +:+ ". Status code: "
              +:+ pretty (status_code resp)) Error None false) ;;;
  parse_lines (iter_lines resp) "".

(** [_request_response]; [_build_headers] reads [self._chat_url] before
    the post. *)
Definition _request_response (prompt_content : string) (net : Post) : M Run string :=
  referer <- get_chat_url ;;
  url <- get_chat_url ;;
  resp <- session_call (Exchange url prompt_content) (rtt net) (posted net) ;;
  _parse_response resp.

(** [chat]: [_update_history(prompts)] stands before the [try]; the
    [finally] suite throttles and returns the local [resp], which is the
    empty string unless [_request_response] returned. *)
Definition chat (prompts : list Prompt) (net : Post) : M Run string :=
  _update_history prompts ;;;
  prompt_content <- gets (fun r => _build_prompt (obj r)) ;;
  fun r =>
    let '(resp, r') :=
      match _request_response prompt_content net r with
      | (Raise e, r1) =>
          ("", snd (_log MessageTemplates.post_failed Error (Some e) false r1))
      | (Ok resp, r1) =>
          (resp, snd (_update_history [{| author := "assistant"; Assistant.content := resp |}] r1))
      end in
    (_throttle (oversleep net) ;;;
     ret resp) r'.

(** The attributes that [_clear_prompts] assigns. *)
Definition prompts_of (o : Adapter) : list Prompt * list string * list string * string :=
  (_raw_history o, _chat_history o, _split_history o, _preprompt o).

Section Preprompts.

(** The text of [preprompts/huggingchat/default.txt], loaded when the module
    is imported. *)
Variable Preprompts_default : string.

(** [_clear_prompts] *)
Definition _clear_prompts : M Run unit :=
  modify (on_obj (set_raw_history [])) ;;;
  modify (on_obj (set_chat_history [])) ;;;
  modify (on_obj (set_split_history [])) ;;;
  modify (on_obj (set_preprompt_attr Preprompts_default)).

(** What a session start meets: the probe, then the posts of [_new_chat]. *)
Record Start : Type := { probe : ProbeGet; posts : nat -> NewChatPost }.

(** [__aenter__] *)
Definition __aenter__ (net : Start) : M Run unit :=
  _clear_prompts ;;;
  _set_session (probe net) ;;;
  _new_chat (posts net).

(** [ainit] *)
Definition ainit (net : Start) : M Run unit := __aenter__ net.

End Preprompts.

End HuggingChat.

(** ** adventurer.py *)

Module Adventurer.

Definition LOG_NAME : string := "Adventurer".
Definition DEFAULT_USER : string := "user".

Module MessageTemplates.
Definition found_messages (n : nat) : string :=
  "Found " +:+ pretty n +:+ " new messages. Sending them to the assistant".
Definition response_received (content : string) : string :=
  "Response received:" +:+ HuggingChat.newline +:+ content.
Definition clearing_queue : string := "Clearing message queue".
Definition chat_error : string := "Error while talking to the assistant".
Definition q_add (author content : string) : string :=
  "Adding message to the queue:" +:+ HuggingChat.newline +:+ author +:+ ": " +:+ content.
Definition adventurer_ready : string :=
  "New adventurer ready, wait for their introduction".
Definition intro_prompt : string := "Introduce yourself.".
End MessageTemplates.

(** An element of [self._chat_cbs]: the bound method [self._log], which
    [__init__] puts first, or a callback added by [add_chat_cb]. *)
Inductive Handler : Type :=
| SelfLog
| Registered (id : nat).

(** The attributes of an [Adventurer] that the loop touches, then what it
    does to the outside: the messages handed to the logger hub, the copy of
    the queue taken by each cycle, the turn lists passed to
    [self._conversation.chat], the calls of registered handlers, and the
    loop tasks that were created and have not run yet. *)
Record Agent : Type := {
  _conversation_queue : list Prompt;
  _chat_cbs : list Handler;
  logged : list LogMessage;
  snapshots : list (list Prompt);
  exchanges : list (list Prompt);
  broadcasts : list (nat * string);
  pending : nat
}.

Definition set_queue (q : list Prompt) (a : Agent) : Agent :=
  {| _conversation_queue := q; _chat_cbs := _chat_cbs a; logged := logged a;
     snapshots := snapshots a; exchanges := exchanges a;
     broadcasts := broadcasts a; pending := pending a |}.
Definition set_chat_cbs (cbs : list Handler) (a : Agent) : Agent :=
  {| _conversation_queue := _conversation_queue a; _chat_cbs := cbs;
     logged := logged a; snapshots := snapshots a; exchanges := exchanges a;
     broadcasts := broadcasts a; pending := pending a |}.
Definition emit (m : LogMessage) (a : Agent) : Agent :=
  {| _conversation_queue := _conversation_queue a; _chat_cbs := _chat_cbs a;
     logged := logged a ++ [m]; snapshots := snapshots a;
     exchanges := exchanges a; broadcasts := broadcasts a; pending := pending a |}.
Definition note_snapshot (q : list Prompt) (a : Agent) : Agent :=
  {| _conversation_queue := _conversation_queue a; _chat_cbs := _chat_cbs a;
     logged := logged a; snapshots := snapshots a ++ [q];
     exchanges := exchanges a; broadcasts := broadcasts a; pending := pending a |}.
Definition note_exchange (q : list Prompt) (a : Agent) : Agent :=
  {| _conversation_queue := _conversation_queue a; _chat_cbs := _chat_cbs a;
     logged := logged a; snapshots := snapshots a;
     exchanges := exchanges a ++ [q]; broadcasts := broadcasts a;
     pending := pending a |}.
Definition note_broadcast (id : nat) (resp : string) (a : Agent) : Agent :=
  {| _conversation_queue := _conversation_queue a; _chat_cbs := _chat_cbs a;
     logged := logged a; snapshots := snapshots a; exchanges := exchanges a;
     broadcasts := broadcasts a ++ [(id, resp)]; pending := pending a |}.
Definition set_pending (n : nat) (a : Agent) : Agent :=
  {| _conversation_queue := _conversation_queue a; _chat_cbs := _chat_cbs a;
     logged := logged a; snapshots := snapshots a; exchanges := exchanges a;
     broadcasts := broadcasts a; pending := n |}.

(** [__init__], as far as the loop is concerned. *)
Definition __init__ : Agent :=
  {| _conversation_queue := []; _chat_cbs := [SelfLog]; logged := [];
     snapshots := []; exchanges := []; broadcasts := []; pending := 0 |}.

(** [_log] *)
Definition _log (content : string) (lvl : LogLevel) (err : option PyExc)
    (long : bool) : M Agent unit :=
  modify (emit {| level := lvl; sender := LOG_NAME; content := content;
                  error := err; long_content := long |}).

(** [_add_to_queue] *)
Definition _add_to_queue (author content : string) : M Agent unit :=
  modify (fun a => set_queue (_conversation_queue a
                              ++ [{| author := author; Assistant.content := content |}]) a).

(** [_clear_queue] *)
Definition _clear_queue : M Agent unit := modify (set_queue []).

(** [add_chat_cb] *)
Definition add_chat_cb (cb : Handler) : M Agent unit :=
  modify (fun a => set_chat_cbs (_chat_cbs a ++ [cb]) a).

(** [chat] *)
Definition chat (author content : string) : M Agent unit :=
  _log (MessageTemplates.q_add author content) Debug None true ;;;
  _add_to_queue author content.

(** [intro] *)
Definition intro : M Agent unit :=
  _log MessageTemplates.adventurer_ready Info None false ;;;
  chat "user" MessageTemplates.intro_prompt.

(** While the loop is suspended in an [await], the other tasks of the event
    loop run; [arrivals] are the messages they submit through [chat], in
    order. *)
Fixpoint suspended (arrivals : list Prompt) : M Agent unit :=
  match arrivals with
  | [] => ret tt
  | p :: rest => chat (author p) (Assistant.content p) ;;; suspended rest
  end.

(** What one cycle of the loop meets: the messages submitted while it
    sleeps, while it awaits the assistant (and the logs around the call, up
    to the clear), while it awaits the handlers, and while it awaits the
    log of the [except] suite; what [self._conversation.chat(queue)] does;
    and which registered handlers raise. *)
Record Cycle : Type := {
  during_sleep : list Prompt;
  during_exchange : list Prompt;
  during_broadcast : list Prompt;
  during_error_log : list Prompt;
  reply : result string;
  handler_raises : nat -> option PyExc
}.

(** [await cb(resp)] *)
Definition call_handler (c : Cycle) (cb : Handler) (resp : string) : M Agent unit :=
  match cb with
  | SelfLog => _log resp Debug None false
  | Registered id =>
      modify (note_broadcast id resp) ;;;
      match handler_raises c id with
      | Some e => raise e
      | None => ret tt
      end
  end.

(** [for cb in self._chat_cbs: await cb(resp)] *)
Fixpoint for_each_cb (c : Cycle) (cbs : list Handler) (resp : string) : M Agent unit :=
  match cbs with
  | [] => ret tt
  | cb :: rest => call_handler c cb resp ;;; for_each_cb c rest resp
  end.

(** [await self._conversation.chat(queue)], for any assistant behind the
    port. *)
Definition conversation_chat (c : Cycle) (queue : list Prompt) : M Agent string :=
  modify (note_exchange queue) ;;;
  suspended (during_exchange c) ;;;
  match reply c with
  | Ok resp => ret resp
  | Raise e => raise e
  end.

(** [_send_prompts] *)
Definition _send_prompts (c : Cycle) (queue : list Prompt) : M Agent unit :=
  if decide (length queue = 0) then ret tt
  else
    _log (MessageTemplates.found_messages (length queue)) Debug None false ;;;
    resp <- conversation_chat c queue ;;
    _log (MessageTemplates.response_received resp) Debug None true ;;;
    _log MessageTemplates.clearing_queue Debug None false ;;;
    _clear_queue ;;;
    suspended (during_broadcast c) ;;;
    cbs <- gets _chat_cbs ;;
    for_each_cb c cbs resp.

(** [asyncio.create_task(self._conversation_loop())] *)
Definition create_task : M Agent unit :=
  modify (fun a => set_pending (S (pending a)) a).

(** [_conversation_loop] *)
Definition _conversation_loop (c : Cycle) : M Agent unit :=
  suspended (during_sleep c) ;;;
  queue <- gets _conversation_queue ;;
  modify (note_snapshot queue) ;;;
  finally_return
    (try_except
       (_send_prompts c queue)
       (fun e =>
          _log MessageTemplates.chat_error Error (Some e) false ;;;
          suspended (during_error_log c)))
    (create_task ;;;
     ret tt).

(** The event loop runs the created loop tasks one after the other, as long
    as there is one; how a task ended does not matter to the next. *)
Fixpoint run (cycles : list Cycle) (a : Agent) : Agent :=
  match cycles with
  | [] => a
  | c :: rest =>
      match pending a with
      | 0 => a
      | S n => run rest (snd (_conversation_loop c (set_pending n a)))
      end
  end.

End Adventurer.

(** ** Notions of the specification, stated next to the code *)

Module Spec.

(** The two author classes of the token format. *)
Inductive AuthorClass : Type := User | Assistant_.

Definition author_class (author : string) : AuthorClass :=
  if decide (author = "assistant") then Assistant_ else User.

(** The class read back from a formatted turn: which start token the
    string begins with. *)
Definition leading_class (formatted : string) : option AuthorClass :=
  if String.prefix HuggingChat.ASSISTANT_MESSAGE_TOKEN formatted then Some Assistant_
  else if String.prefix HuggingChat.USER_MESSAGE_TOKEN formatted then Some User
  else None.

Definition start_token (c : AuthorClass) : string :=
  match c with
  | User => HuggingChat.USER_MESSAGE_TOKEN
  | Assistant_ => HuggingChat.ASSISTANT_MESSAGE_TOKEN
  end.

(** The throttle invariant as the specification words it: any two
    consecutive requests on the wire are at least [interval] apart. *)
Definition requests_apart (interval : Z) (wire : list (Z * HuggingChat.Request)) : Prop :=
  forall (i : nat) (t1 t2 : Z) (q1 q2 : HuggingChat.Request),
    wire !! i = Some (t1, q1) ->
    wire !! S i = Some (t2, q2) ->
    (interval <= t2 - t1)%Z.

(** The drain as the specification words it, over two consecutive cycles
    [c1] and [c2] from [a]: the queue is emptied right after the copy is
    taken, so the second copy holds what was submitted since the first
    copy, once each, and nothing of the first. *)
Definition drain_clears_at_snapshot (a : Adventurer.Agent)
    (c1 c2 : Adventurer.Cycle) : Prop :=
  let a2 := Adventurer.run [c1; c2] a in
  Adventurer.snapshots a2 =
    Adventurer.snapshots a
    ++ [Adventurer._conversation_queue a ++ Adventurer.during_sleep c1;
        Adventurer.during_exchange c1 ++ Adventurer.during_broadcast c1
        ++ Adventurer.during_error_log c1 ++ Adventurer.during_sleep c2].

(** The agent after the other tasks submitted [arrivals] through [chat]. *)
Definition q_add_message (p : Prompt) : LogMessage :=
  {| level := Debug; sender := Adventurer.LOG_NAME;
     content := Adventurer.MessageTemplates.q_add (author p) (Assistant.content p);
     error := None; long_content := true |}.

Definition arrived (arrivals : list Prompt) (a : Adventurer.Agent) : Adventurer.Agent :=
  {| Adventurer._conversation_queue := Adventurer._conversation_queue a ++ arrivals;
     Adventurer._chat_cbs := Adventurer._chat_cbs a;
     Adventurer.logged := Adventurer.logged a ++ map q_add_message arrivals;
     Adventurer.snapshots := Adventurer.snapshots a;
     Adventurer.exchanges := Adventurer.exchanges a;
     Adventurer.broadcasts := Adventurer.broadcasts a;
     Adventurer.pending := Adventurer.pending a |}.

(** The message of the [except] suite of the loop. *)
Definition chat_error_message (e : PyExc) : LogMessage :=
  {| level := Error; sender := Adventurer.LOG_NAME;
     content := Adventurer.MessageTemplates.chat_error;
     error := Some e; long_content := false |}.

(** The first exception that the handlers raise, in registration order. *)
Fixpoint first_raise (c : Adventurer.Cycle) (cbs : list Adventurer.Handler)
    : option PyExc :=
  match cbs with
  | [] => None
  | Adventurer.SelfLog :: rest => first_raise c rest
  | Adventurer.Registered id :: rest =>
      match Adventurer.handler_raises c id with
      | Some e => Some e
      | None => first_raise c rest
      end
  end.

(** An agent without what it logged and broadcast. *)
Definition core (a : Adventurer.Agent)
    : list Prompt * list Adventurer.Handler * list (list Prompt)
      * list (list Prompt) * nat :=
  (Adventurer._conversation_queue a, Adventurer._chat_cbs a,
   Adventurer.snapshots a, Adventurer.exchanges a, Adventurer.pending a).

End Spec.

(** ** Concrete runs *)

Module Examples.

Definition hello : Prompt := {| author := "user"; Assistant.content := "hello" |}.
Definition again : Prompt := {| author := "bob"; Assistant.content := "again" |}.

(** An adapter just constructed, at time 0 of a world in which nothing
    happened yet. *)
Definition world0 : HuggingChat.World :=
  {| HuggingChat.clock := 0; HuggingChat.logged := []; HuggingChat.wire := [] |}.
Definition fresh : HuggingChat.Run :=
  {| HuggingChat.obj := HuggingChat.__init__ world0; HuggingChat.env := world0 |}.

(** A backend that answers the probe in 400 ms and creates the
    conversation "abc" in 150 ms, at every attempt. *)
Definition reachable : HuggingChat.Start :=
  {| HuggingChat.probe := {| HuggingChat.probed := None; HuggingChat.probe_rtt := 400000 |};
     HuggingChat.posts := fun _ =>
       {| HuggingChat.conversation := Ok "abc"; HuggingChat.new_rtt := 150000;
          HuggingChat.new_oversleep := 0 |} |}.

(** A backend whose first post for a conversation fails and whose later
    ones would succeed. *)
Definition flaky (i : nat) : HuggingChat.NewChatPost :=
  {| HuggingChat.conversation :=
       match i with
       | 0 => Raise (ConnectionError "connection reset")
       | _ => Ok "abc"
       end;
     HuggingChat.new_rtt := 150000; HuggingChat.new_oversleep := 0 |}.

(** An exchange answered with status 200 and two fragments after 2 s. *)
Definition answered : HuggingChat.Post :=
  {| HuggingChat.posted :=
       Ok {| HuggingChat.status_code := 200;
             HuggingChat.iter_lines :=
               [HuggingChat.Obj {[ "generated_text" := "Well " ]};
                HuggingChat.Obj {[ "generated_text" := "met." ]}] |};
     HuggingChat.rtt := 2000000; HuggingChat.oversleep := 0 |}.

(** An exchange answered with status 500 and an empty body. *)
Definition refused : HuggingChat.Post :=
  {| HuggingChat.posted :=
       Ok {| HuggingChat.status_code := 500; HuggingChat.iter_lines := [] |};
     HuggingChat.rtt := 200000; HuggingChat.oversleep := 0 |}.

(** An exchange answered with status 502 and one fragment. *)
Definition refused_with_text : HuggingChat.Post :=
  {| HuggingChat.posted :=
       Ok {| HuggingChat.status_code := 502;
             HuggingChat.iter_lines :=
               [HuggingChat.Obj {[ "generated_text" := "Bad Gateway" ]}] |};
     HuggingChat.rtt := 200000; HuggingChat.oversleep := 0 |}.

(** An exchange whose post raises. *)
Definition unreachable : HuggingChat.Post :=
  {| HuggingChat.posted := Raise (ConnectionError "connection reset");
     HuggingChat.rtt := 200000; HuggingChat.oversleep := 0 |}.

Definition default_text : string := "You are a helpful assistant.".

(** The session of [fresh] once started against [reachable]. *)
Definition started : HuggingChat.Run :=
  snd (HuggingChat.__aenter__ default_text reachable fresh).

(** An agent whose loop task was created and to which "hello" was
    submitted. *)
Definition waiting : Adventurer.Agent :=
  snd ((Adventurer.create_task ;;;
        Adventurer.chat "user" "hello") Adventurer.__init__).

(** A cycle during whose exchange [again] is submitted; the assistant
    replies. *)
Definition busy : Adventurer.Cycle :=
  {| Adventurer.during_sleep := []; Adventurer.during_exchange := [again];
     Adventurer.during_broadcast := []; Adventurer.during_error_log := [];
     Adventurer.reply := Ok "Well met.";
     Adventurer.handler_raises := fun _ => None |}.

(** A cycle in which nothing is submitted and the assistant raises. *)
Definition failing : Adventurer.Cycle :=
  {| Adventurer.during_sleep := []; Adventurer.during_exchange := [];
     Adventurer.during_broadcast := []; Adventurer.during_error_log := [];
     Adventurer.reply := Raise (ConnectionError "connection reset");
     Adventurer.handler_raises := fun _ => None |}.

(** A cycle in which nothing is submitted; the assistant would reply. *)
Definition quiet : Adventurer.Cycle :=
  {| Adventurer.during_sleep := []; Adventurer.during_exchange := [];
     Adventurer.during_broadcast := []; Adventurer.during_error_log := [];
     Adventurer.reply := Ok "Well met.";
     Adventurer.handler_raises := fun _ => None |}.

End Examples.

(** ** Runs of several calls *)

Module Conversation.

(** Whether a word holds a space. *)
Fixpoint has_space (s : string) : bool :=
  match s with
  | EmptyString => false
  | String a s' => if decide (a = HuggingChat.space) then true else has_space s'
  end.

(** [_update_history([p])] for each turn of [turns], in order: what [chat]
    does to the histories over a conversation, turn by turn. *)
Definition updates (turns : list Prompt) (r : HuggingChat.Run) : HuggingChat.Run :=
  foldl (fun r p => snd (HuggingChat._update_history [p] r)) r turns.

(** The state in which the [finally] suite of [chat] starts: after
    [_update_history(prompts)], the request, and the [except] or the [else]
    suite. When [_update_history] raises, the [try] statement is not
    entered and the state is that of the raise. *)
Definition entering_finally (prompts : list Prompt) (net : HuggingChat.Post)
    (r : HuggingChat.Run) : HuggingChat.Run :=
  match HuggingChat._update_history prompts r with
  | (Raise _, r0) => r0
  | (Ok _, r0) =>
      match HuggingChat._request_response
              (HuggingChat._build_prompt (HuggingChat.obj r0)) net r0 with
      | (Raise e, r1) =>
          snd (HuggingChat._log HuggingChat.MessageTemplates.post_failed
                 Error (Some e) false r1)
      | (Ok resp, r1) =>
          snd (HuggingChat._update_history
                 [{| author := "assistant"; Assistant.content := resp |}] r1)
      end
  end.

(** Time passes and nothing else happens: the session is left alone for
    [d] microseconds. *)
Definition idle (d : N) (r : HuggingChat.Run) : HuggingChat.Run :=
  HuggingChat.on_env (HuggingChat.tick (Z.of_N d)) r.

(** [chat([p])] for each [(d, p, net)] of [calls], in order: [d] is the
    time that passes between the end of the call before, when the
    timestamp was set, and the post of this one. *)
Definition paced (calls : list (N * Prompt * HuggingChat.Post)) (r : HuggingChat.Run)
    : HuggingChat.Run :=
  foldl (fun r call => snd (HuggingChat.chat [call.1.2] call.2 (idle call.1.1 r)))
        r calls.

(** The requests put on the wire since it was [before] entries long. *)
Definition sent_since (before : nat) (r : HuggingChat.Run)
    : list (Z * HuggingChat.Request) :=
  drop before (HuggingChat.wire (HuggingChat.env r)).

(** A line of the stream that carries text: an object with the key
    [generated_text]. *)
Definition carries (line : HuggingChat.StreamLine) (text : string) : Prop :=
  exists o, line = HuggingChat.Obj o /\ o !! "generated_text" = Some text.

(** A line that [_parse_response] passes without raising. *)
Definition passes (line : HuggingChat.StreamLine) : Prop :=
  exists o, line = HuggingChat.Obj o
            /\ (is_Some (o !! "generated_text") \/ o !! "error" = None).

End Conversation.

(** ** Loggers built by subscriptions *)

Module Subscriptions.

(** A logger after [Logger()] and the calls [subscribe(cb, level)] of
    [subs], in order. *)
Definition subscribed (subs : list (LoggerHub.Callback * LoggerHub.LogLevel))
    : LoggerHub.Logger :=
  foldl (fun lg sub => LoggerHub.subscribe (fst sub) (snd sub) lg) LoggerHub.init subs.

End Subscriptions.

(** ** Handlers reached by a broadcast *)

Module Broadcast.

(** The registered handlers that [for cb in self._chat_cbs: await cb(resp)]
    calls: in registration order, up to the first that raises. *)
Fixpoint reached (c : Adventurer.Cycle) (cbs : list Adventurer.Handler) : list nat :=
  match cbs with
  | [] => []
  | Adventurer.SelfLog :: rest => reached c rest
  | Adventurer.Registered id :: rest =>
      id :: match Adventurer.handler_raises c id with
            | Some _ => []
            | None => reached c rest
            end
  end.

(** The entries of a log at level [Error]. *)
Definition errors (log : list LogMessage) : list LogMessage :=
  filter (fun m => level m = Error) log.

End Broadcast.

(** ** main.py: the adventurer with the HuggingChat adapter behind it *)

Module Deployment.

(** [Adventurer(HuggingChat, logger)]: the agent and its long-lived
    session. *)
Record System : Type := {
  agent : Adventurer.Agent;
  session : HuggingChat.Run
}.

(** [self._loop_throttle_time = 5], in microseconds. *)
Definition _loop_throttle_time : Z := 5000000.

(** What one cycle of the deployed loop meets: the submissions and handler
    outcomes of [happenings] (its [reply] is not used: the adapter gives
    the reply), what the post of the exchange meets, and by how much the
    sleep of the loop overshoots. *)
Record Tick : Type := {
  happenings : Adventurer.Cycle;
  net : HuggingChat.Post;
  overslept : N
}.

Definition with_reply (rep : result string) (c : Adventurer.Cycle) : Adventurer.Cycle :=
  {| Adventurer.during_sleep := Adventurer.during_sleep c;
     Adventurer.during_exchange := Adventurer.during_exchange c;
     Adventurer.during_broadcast := Adventurer.during_broadcast c;
     Adventurer.during_error_log := Adventurer.during_error_log c;
     Adventurer.reply := rep;
     Adventurer.handler_raises := Adventurer.handler_raises c |}.

(** One cycle of [_conversation_loop] with [self._conversation] a
    [HuggingChat]: the loop sleeps, copies the queue and, when the copy is
    not empty, calls [chat] of the session with it. *)
Definition cycle (t : Tick) (s : System) : System :=
  let woken :=
    HuggingChat.on_env
      (HuggingChat.tick (_loop_throttle_time + Z.of_N (overslept t))) (session s) in
  let queue :=
    Adventurer._conversation_queue (agent s)
    ++ Adventurer.during_sleep (happenings t) in
  match queue with
  | [] =>
      {| agent := snd (Adventurer._conversation_loop (happenings t) (agent s));
         session := woken |}
  | _ :: _ =>
      let out := HuggingChat.chat queue (net t) woken in
      {| agent := snd (Adventurer._conversation_loop
                         (with_reply (fst out) (happenings t)) (agent s));
         session := snd out |}
  end.

(** The cycles of [ticks], one after the other. *)
Definition cycles (ticks : list Tick) (s : System) : System :=
  foldl (fun s t => cycle t s) s ticks.

End Deployment.

(** ** preprompt_loader.py *)

Module PrepromptLoader.

Definition starts_with_slash (s : string) : bool :=
  match s with
  | String a _ => if decide (a = "/"%char) then true else false
  | EmptyString => false
  end.

Fixpoint ends_with_slash (s : string) : bool :=
  match s with
  | EmptyString => false
  | String a EmptyString => if decide (a = "/"%char) then true else false
  | String _ s' => ends_with_slash s'
  end.

(** [os.path.join(a, b)] of [posixpath]. *)
Definition path_join (a b : string) : string :=
  if starts_with_slash b then b
  else if decide (a = "") then a +:+ b
  else if ends_with_slash a then a +:+ b
  else a +:+ "/" +:+ b.

(** The files that can be opened for reading, with their text; [open] of
    any other path raises [FileNotFoundError]. *)
Definition Files : Type := gmap string string.

Inductive Loaded : Type :=
| Dict (preprompts : gmap string string)
| FileNotFoundError (path : string).

(** The keys of [{name: "" for name in preprompt_names}] in iteration
    order: each name once, at its first occurrence. *)
Fixpoint keys (names : list string) : list string :=
  match names with
  | [] => []
  | name :: rest => name :: filter (fun n => n <> name) (keys rest)
  end.

(** The loop [for name in preprompts]. *)
Fixpoint read_each (fs : Files) (folder : string) (names : list string)
    (preprompts : gmap string string) : Loaded :=
  match names with
  | [] => Dict preprompts
  | name :: rest =>
      let path := path_join folder (name +:+ ".txt") in
      match fs !! path with
      | Some text => read_each fs folder rest (<[name := text]> preprompts)
      | None => FileNotFoundError path
      end
  end.

(** [load_preprompts] *)
Definition load_preprompts (fs : Files) (folder : string) (preprompt_names : list string)
    : Loaded :=
  let preprompts : gmap string string :=
    list_to_map (map (fun name => (name, "")) preprompt_names) in
  read_each fs folder (keys preprompt_names) preprompts.

End PrepromptLoader.

(** ** Concrete deployments *)

Module Scenarios.

(** The deployed system after a session start, with "hello" and then
    [again] in the queue. *)
Definition crowded : Deployment.System :=
  {| Deployment.agent :=
       snd (Adventurer.chat "bob" "again" Examples.waiting);
     Deployment.session := Examples.started |}.

(** The deployed system after a session start, with "hello" in the queue. *)
Definition single : Deployment.System :=
  {| Deployment.agent := Examples.waiting;
     Deployment.session := Examples.started |}.

(** A cycle in which nothing is submitted and the backend answers. *)
Definition answered_tick : Deployment.Tick :=
  {| Deployment.happenings := Examples.quiet;
     Deployment.net := Examples.answered;
     Deployment.overslept := 1000 |}.

(** A cycle in which nothing is submitted and the post raises. *)
Definition failed_tick : Deployment.Tick :=
  {| Deployment.happenings := Examples.quiet;
     Deployment.net := Examples.unreachable;
     Deployment.overslept := 1000 |}.

(** A cycle during whose exchange [again] is submitted; the assistant
    raises. *)
Definition busy_failing : Adventurer.Cycle :=
  {| Adventurer.during_sleep := []; Adventurer.during_exchange := [Examples.again];
     Adventurer.during_broadcast := []; Adventurer.during_error_log := [];
     Adventurer.reply := Raise (ConnectionError "connection reset");
     Adventurer.handler_raises := fun _ => None |}.

(** Two callbacks, each subscribed at [Error] and at [All], next to the
    console logger. *)
Definition two_senders : LoggerHub.Logger :=
  LoggerHub.subscribe 2 All (LoggerHub.subscribe 2 Error
    (LoggerHub.subscribe 1 All (LoggerHub.subscribe 1 Error LoggerHub.init))).

(** The console logger prints; every other subscriber fails to send. *)
Definition send_fails : LoggerHub.Awaits :=
  fun cb => if decide (cb = LoggerHub.console_logger) then None
            else Some (Py.ConnectionError "cannot send").

Definition an_error : LogMessage :=
  {| level := Error; sender := "Adventurer"; content := "oops";
     error := None; long_content := false |}.

End Scenarios.

(** * Properties *)

(** ** Strings and lists *)

Lemma append_cons (a : ascii) (s1 s2 : string) :
  String a s1 +:+ s2 = String a (s1 +:+ s2).
Proof. reflexivity. Qed.

Lemma append_assoc (s1 s2 s3 : string) : (s1 +:+ s2) +:+ s3 = s1 +:+ (s2 +:+ s3).
Proof.
  induction s1 as [|a s1 IH]; [reflexivity |].
  rewrite !append_cons. f_equal. exact IH.
Qed.

Lemma prefix_append (t s : string) : String.prefix t (t +:+ s) = true.
Proof.
  induction t as [|a t IH]; [by destruct s |].
  rewrite append_cons. simpl. by destruct (ascii_dec a a).
Qed.

Lemma filter_eq_NoDup {A} `{EqDecision A} (x : A) (l : list A) :
  NoDup l ->
  length (filter (fun y => y = x) l) = if decide (x ∈ l) then 1 else 0.
Proof.
  induction 1 as [|y l Hy Hl IH].
  - case_decide as Hin; [by apply elem_of_nil in Hin | done].
  - rewrite filter_cons. destruct (decide (y = x)) as [->|Hne]; simpl.
    + rewrite IH. rewrite decide_False by done.
      rewrite decide_True by apply list_elem_of_here. done.
    + rewrite IH.
      destruct (decide (x ∈ l)) as [Hin|Hin], (decide (x ∈ y :: l)) as [Hin'|Hin'];
        try done; exfalso.
      * apply Hin'. by apply elem_of_cons; right.
      * apply elem_of_cons in Hin' as [->|Hin']; [by apply Hne | by apply Hin].
Qed.

(** ** logger.py *)

Section LoggerFacts.
Import LoggerHub.

Lemma subscribe_subscribers cb lvl lg l :
  subscribers (subscribe cb lvl lg) l =
  if decide (l = lvl) then subscribers lg l ∪ {[cb]} else subscribers lg l.
Proof. destruct lvl, l; simpl; by repeat case_decide. Qed.

Lemma Logger_eq lg1 lg2 :
  (forall l, subscribers lg1 l = subscribers lg2 l) -> lg1 = lg2.
Proof.
  intros H. destruct lg1, lg2.
  pose proof (H Info); pose proof (H Debug); pose proof (H Error);
    pose proof (H All); simpl in *; congruence.
Qed.

Lemma await_each_prefix (raises : Awaits) (cbs : list Callback) :
  snd (await_each raises cbs) `prefix_of` cbs.
Proof.
  induction cbs as [|c cbs IH]; simpl; [done |].
  destruct (raises c); simpl.
  - by apply prefix_cons, prefix_nil.
  - by apply prefix_cons.
Qed.

Lemma await_each_count (raises : Awaits) (cb : Callback) (cbs : list Callback) :
  NoDup cbs ->
  length (filter (fun c => c = cb) (snd (await_each raises cbs)))
  = if decide (cb ∈ cbs /\ Forall (fun c => raises c = None) (earlier cb cbs))
    then 1 else 0.
Proof.
  induction 1 as [|c cbs Hc Hnd IH].
  - destruct (decide (cb ∈ [] /\ _)) as [[Hin _]|_]; [| done].
    by apply elem_of_nil in Hin.
  - cbn [await_each earlier].
    destruct (decide (c = cb)) as [->|Hne].
    + destruct (decide (cb ∈ cb :: cbs /\ Forall (fun c => raises c = None) []))
        as [_|Hn]; [| exfalso; apply Hn; split; [apply list_elem_of_here | constructor]].
      destruct (raises cb); cbn [snd].
      * by rewrite filter_cons_True, filter_nil.
      * rewrite filter_cons_True by done. cbn [length]. rewrite IH.
        destruct (decide (cb ∈ cbs /\ _)) as [[Hin _]|_]; [by destruct Hc | done].
    + destruct (raises c) eqn:Hr; cbn [snd].
      * rewrite filter_cons_False, filter_nil by done.
        destruct (decide (cb ∈ c :: cbs /\ _)) as [[_ Hall]|_]; [| done].
        apply Forall_cons in Hall as [Hnone _]. congruence.
      * rewrite filter_cons_False by done. rewrite IH.
        destruct (decide (cb ∈ cbs /\ _)) as [[Hin Hall]|Hn],
          (decide (cb ∈ c :: cbs /\ _)) as [[Hin' Hall']|Hn']; try done; exfalso.
        -- apply Hn'. split; [by apply elem_of_cons; right | by apply Forall_cons].
        -- apply Hn. split.
           ++ apply elem_of_cons in Hin' as [->|Hin']; [by destruct Hne | done].
           ++ by apply Forall_cons in Hall' as [_ Hall'].
Qed.

Lemma earlier_only (cb : Callback) (e : option PyExc) (cbs : list Callback) :
  Forall (fun c => only cb e c = None) (earlier cb cbs).
Proof.
  induction cbs as [|c cbs IH]; simpl; [constructor |].
  destruct (decide (c = cb)) as [|Hne]; [constructor |].
  constructor; [| exact IH]. unfold only. by rewrite decide_False.
Qed.

Lemma calls_spec (raises : Awaits) cb message lg :
  calls raises cb message lg =
  if decide (cb ∈ audience message lg
             /\ Forall (fun c => raises c = None)
                       (earlier cb (elements (audience message lg))))
  then 1 else 0.
Proof.
  unfold calls, awaited, log. rewrite await_each_count by apply NoDup_elements.
  destruct (decide (cb ∈ elements _ /\ _)) as [[Hin Hall]|Hn],
    (decide (cb ∈ audience message lg /\ _)) as [[Hin' Hall']|Hn']; try done; exfalso.
  - apply Hn'. split; [by apply elem_of_elements | done].
  - apply Hn. split; [by apply elem_of_elements | done].
Qed.

Lemma calls_only (cb : Callback) (e : option PyExc) message lg :
  calls (only cb e) cb message lg = if decide (cb ∈ audience message lg) then 1 else 0.
Proof.
  rewrite calls_spec.
  destruct (decide (cb ∈ audience message lg /\ _)) as [[Hin _]|Hn],
    (decide (cb ∈ audience message lg)) as [Hin'|Hin']; try done; exfalso.
  apply Hn. split; [done | apply earlier_only].
Qed.

Lemma calls_le_1 (raises : Awaits) cb message lg : calls raises cb message lg <= 1.
Proof. rewrite calls_spec. case_decide; lia. Qed.

Lemma audience_subscribe (cb : Callback) (lvl : LogLevel) message lg :
  audience message (subscribe cb lvl lg)
  = if decide (lvl = level message \/ lvl = All)
    then audience message lg ∪ {[cb]} else audience message lg.
Proof.
  unfold audience. rewrite !subscribe_subscribers.
  destruct (decide (level message = lvl)) as [Hl|Hl],
    (decide (All = lvl)) as [Ha|Ha],
    (decide (lvl = level message \/ lvl = All)) as [Hy|Hn];
    try done; try (exfalso; apply Hn; by auto); try (exfalso; by destruct Hy);
    apply set_eq; intros x; rewrite ?elem_of_union, ?elem_of_singleton; tauto.
Qed.

(** C9, as amended. Subscribing a callback twice at a level leaves the
    registry, and every [log], as one subscription does. [log] iterates
    over the union of the set of the level of the message and the set of
    [All], and stops at the first subscriber whose await raises: what it
    awaits is a beginning of that iteration, without repetition, so no
    callback is awaited twice, also when it is subscribed at both levels. A
    callback is awaited exactly once when it is in the union and none of
    the subscribers reached before it raises, and not at all otherwise; in
    particular a callback subscribed at the level of the message and at
    [All] is awaited exactly once as long as no other subscriber raises. *)
Theorem subscription_idempotent_log_once
    (raises : Awaits) (e : option PyExc)
    (cb : Callback) (lvl : LogLevel) (lg : Logger) (message : LogMessage) :
  subscribe cb lvl (subscribe cb lvl lg) = subscribe cb lvl lg
  /\ log raises message (subscribe cb lvl (subscribe cb lvl lg))
     = log raises message (subscribe cb lvl lg)
  /\ awaited raises message lg `prefix_of` elements (audience message lg)
  /\ NoDup (awaited raises message lg)
  /\ calls raises cb message lg <= 1
  /\ calls raises cb message lg
     = (if decide (cb ∈ audience message lg
                   /\ Forall (fun c => raises c = None)
                             (earlier cb (elements (audience message lg))))
        then 1 else 0)
  /\ calls (only cb e) cb message
       (subscribe cb All (subscribe cb (level message) lg)) = 1
  /\ calls (only cb e) cb message
       (subscribe cb (level message) (subscribe cb All lg)) = 1.
Proof.
  assert (Hid : subscribe cb lvl (subscribe cb lvl lg) = subscribe cb lvl lg).
  { apply Logger_eq. intros l. rewrite !subscribe_subscribers.
    destruct (decide (l = lvl)); [| done].
    by rewrite <- (assoc_L (∪)), (idemp_L (∪)). }
  split; [exact Hid |]. split; [by rewrite Hid |].
  split; [apply await_each_prefix |].
  split.
  { destruct (await_each_prefix raises (elements (audience message lg))) as [k Hk].
    pose proof (NoDup_elements (audience message lg)) as Hnd.
    unfold awaited, log. rewrite Hk in Hnd. by apply NoDup_app in Hnd as [Hnd _]. }
  split; [apply calls_le_1 |]. split; [apply calls_spec |].
  split; rewrite calls_only; apply decide_True; rewrite !audience_subscribe.
  - rewrite (decide_True (P := All = level message \/ All = All)) by auto.
    apply elem_of_union; right. by apply elem_of_singleton.
  - rewrite (decide_True (P := level message = level message \/ level message = All))
      by auto.
    apply elem_of_union; right. by apply elem_of_singleton.
Qed.

(** C9, as stated, fails. The callbacks 1 and 2 are each subscribed at
    [Error] and at [All], and their awaits raise. For a message of level
    [Error] the loop reaches 2 first and ends there: 1, subscribed at the
    level of the message and at [All], is not awaited; whichever the loop
    reaches first, the two are not both awaited exactly once. *)
Lemma raising_subscriber_ends_the_loop :
  1 ∈ subscribers Scenarios.two_senders (level Scenarios.an_error)
  /\ 1 ∈ subscribers Scenarios.two_senders All
  /\ log Scenarios.send_fails Scenarios.an_error Scenarios.two_senders
     = (Raise (ConnectionError "cannot send"), [2])
  /\ calls Scenarios.send_fails 1 Scenarios.an_error Scenarios.two_senders = 0
  /\ ~ (calls Scenarios.send_fails 1 Scenarios.an_error Scenarios.two_senders = 1
        /\ calls Scenarios.send_fails 2 Scenarios.an_error Scenarios.two_senders = 1).
Proof.
  split; [by vm_compute |]. split; [by vm_compute |].
  split; [by vm_compute |]. split; [by vm_compute |].
  vm_compute. intros [H1 H2]; discriminate.
Qed.

End LoggerFacts.

(** ** huggingchat.py: formatting and the prompt *)

Section FormatFacts.
Import HuggingChat.

Lemma _format_prompts_map (prompts : list Prompt) :
  _format_prompts prompts = map format_prompt prompts.
Proof.
  unfold _format_prompts.
  induction prompts as [|p prompts IH] using rev_ind; [reflexivity |].
  by rewrite foldl_snoc, map_app, IH.
Qed.

(** C8. A formatted turn is the start token of the author's class, the
    content and the end token; it begins with the assistant token exactly
    when the author is "assistant" and with the user token for every other
    author, never with both, so the leading token gives the class back. *)
Theorem format_then_leading_token_recovers_class (prompt : Prompt) :
  format_prompt prompt
    = Spec.start_token (Spec.author_class (author prompt))
      +:+ Assistant.content prompt +:+ SEP_TOKEN
  /\ Spec.leading_class (format_prompt prompt)
     = Some (Spec.author_class (author prompt))
  /\ String.prefix ASSISTANT_MESSAGE_TOKEN (format_prompt prompt)
     = bool_decide (author prompt = "assistant")
  /\ String.prefix USER_MESSAGE_TOKEN (format_prompt prompt)
     = negb (bool_decide (author prompt = "assistant"))
  /\ _format_prompts [prompt] = [format_prompt prompt].
Proof.
  assert (Hone : _format_prompts [prompt] = [format_prompt prompt])
    by reflexivity.
  revert Hone. generalize (_format_prompts [prompt]). intros formatted ->.
  unfold format_prompt, Spec.leading_class, Spec.author_class.
  destruct (decide (author prompt = "assistant")) as [Ha|Ha].
  - rewrite (bool_decide_eq_true_2 _ Ha), prefix_append.
    repeat split; reflexivity.
  - rewrite (bool_decide_eq_false_2 _ Ha), prefix_append.
    repeat split; reflexivity.
Qed.

Lemma slice_from_last {A} (n : nat) (l : list A) :
  0 < n -> slice_from (- Z.of_nat n) l = drop (length l - n) l.
Proof.
  intros Hn. unfold slice_from.
  replace (- Z.of_nat n <? 0)%Z with true by (symmetry; apply Z.ltb_lt; lia).
  f_equal. lia.
Qed.

(** C6. The history part of the prompt is the last 1024 words of
    [_split_history] (all of them when there are fewer): at most 1024
    words, the end of the sliding window however long it is; the prompt is
    the preprompt, the separator, these words joined by spaces and the
    assistant token. *)
Theorem build_prompt_bounded_window (o : Adapter) :
  let window := slice_from (- Parameters.max_new_tokens) (_split_history o) in
  Parameters.max_new_tokens = 1024%Z
  /\ length window = Nat.min 1024 (length (_split_history o))
  /\ length window <= 1024
  /\ window = drop (length (_split_history o) - 1024) (_split_history o)
  /\ take (length (_split_history o) - 1024) (_split_history o) ++ window
     = _split_history o
  /\ _build_prompt o
     = _preprompt o +:+ PREPROMPT_SEP +:+ String.concat " " window
       +:+ ASSISTANT_MESSAGE_TOKEN.
Proof.
  intros window.
  assert (Hw : window = drop (length (_split_history o) - 1024) (_split_history o)).
  { apply (slice_from_last 1024). lia. }
  split; [reflexivity |]. split; [rewrite Hw, length_drop; lia |].
  split; [rewrite Hw, length_drop; lia |]. split; [exact Hw |].
  split; [rewrite Hw; apply take_drop |].
  unfold _build_prompt. fold window. by rewrite append_assoc.
Qed.

End FormatFacts.

(** ** huggingchat.py: the histories *)

Section HistoryFacts.
Import HuggingChat.

Lemma update_history_raw (prompts : list Prompt) (r : Run) :
  _raw_history (obj (snd (_update_history prompts r))) = _raw_history (obj r) ++ prompts.
Proof.
  unfold _update_history, bind, modify, gets; simpl.
  destruct (map (split space) (_format_prompts prompts)) as [|ws [|ws' rest]];
    reflexivity.
Qed.

Lemma update_history_chat (prompts : list Prompt) (r : Run) :
  _chat_history (obj (snd (_update_history prompts r))) = map format_prompt prompts.
Proof.
  rewrite <- _format_prompts_map.
  unfold _update_history, bind, modify, gets; simpl.
  destruct (map (split space) (_format_prompts prompts)) as [|ws [|ws' rest]];
    reflexivity.
Qed.

Lemma update_history_one (p : Prompt) (r : Run) :
  fst (_update_history [p] r) = Ok tt
  /\ _split_history (obj (snd (_update_history [p] r)))
     = _split_history (obj r) ++ split space (format_prompt p).
Proof. split; reflexivity. Qed.

Lemma update_history_none (r : Run) :
  fst (_update_history [] r)
    = Raise (TypeError "list.extend() takes exactly one argument")
  /\ _split_history (obj (snd (_update_history [] r))) = _split_history (obj r).
Proof. split; reflexivity. Qed.

Lemma update_history_many (p q : Prompt) (prompts : list Prompt) (r : Run) :
  fst (_update_history (p :: q :: prompts) r)
    = Raise (TypeError "list.extend() takes exactly one argument")
  /\ _split_history (obj (snd (_update_history (p :: q :: prompts) r)))
     = _split_history (obj r).
Proof.
  unfold _update_history, bind, modify, gets; simpl.
  rewrite _format_prompts_map. simpl. split; reflexivity.
Qed.

(** C2, on the code. Two sends of one turn each: the raw history holds
    both turns and the window the words of both, but the formatted history
    holds the second turn alone. One send of two turns: [TypeError], with
    the raw history extended, the formatted history replaced and the window
    untouched. *)
Theorem update_history_replaces_formatted :
  let first := _update_history [Examples.hello] Examples.fresh in
  let second := _update_history [Examples.again] (snd first) in
  let both := _update_history [Examples.hello; Examples.again] Examples.fresh in
  fst second = Ok tt
  /\ _raw_history (obj (snd second)) = [Examples.hello; Examples.again]
  /\ _chat_history (obj (snd first)) = ["<|user|>hello</s>"]
  /\ _chat_history (obj (snd second)) = ["<|user|>again</s>"]
  /\ _split_history (obj (snd second)) = ["<|user|>hello</s>"; "<|user|>again</s>"]
  /\ fst both = Raise (TypeError "list.extend() takes exactly one argument")
  /\ _raw_history (obj (snd both)) = [Examples.hello; Examples.again]
  /\ _chat_history (obj (snd both)) = ["<|user|>hello</s>"; "<|user|>again</s>"]
  /\ _split_history (obj (snd both)) = [].
Proof. vm_compute. repeat split; reflexivity. Qed.

End HistoryFacts.

(** ** huggingchat.py: session start *)

Section SessionFacts.
Import HuggingChat.

Lemma throttle_prompts (over : N) (r : Run) :
  fst (_throttle over r) = Ok tt
  /\ prompts_of (obj (snd (_throttle over r))) = prompts_of (obj r)
  /\ logged (env (snd (_throttle over r))) = logged (env r)
  /\ wire (env (snd (_throttle over r))) = wire (env r)
  /\ _chat_id (obj (snd (_throttle over r))) = _chat_id (obj r).
Proof.
  unfold _throttle, bind, gets, modify, asyncio_sleep, ret; simpl.
  destruct (_ <? _)%Z; simpl; repeat split; reflexivity.
Qed.

Lemma new_chat_body_spec (tries : nat) (net : nat -> NewChatPost) (i : nat) (r : Run) :
  let out := _new_chat_body tries net i r in
  fst out = Ok Return
  /\ prompts_of (obj (snd out)) = prompts_of (obj r)
  /\ wire (env (snd out)) = wire (env r) ++ [(clock (env r), NewConversation _api_route)]
  /\ match conversation (net i) with
     | Ok id =>
         _chat_id (obj (snd out)) = Some id
         /\ logged (env (snd out)) = logged (env r)
     | Raise e =>
         _chat_id (obj (snd out)) = _chat_id (obj r)
         /\ logged (env (snd out))
            = logged (env r)
              ++ [{| level := Error; sender := LOG_NAME;
                     content := MessageTemplates.new_chat_failed (i + 1) tries;
                     error := Some e; long_content := false |}]
     end.
Proof.
  unfold _new_chat_body, finally_return, try_except, session_call.
  unfold bind at 1. unfold bind at 2. unfold bind at 2. unfold bind at 2.
  unfold modify, ret, raise; simpl.
  destruct (conversation (net i)) as [id|e]; simpl;
    match goal with
    | |- context [_throttle ?o ?x] =>
        destruct (throttle_prompts o x) as (H1 & H2 & H3 & H4 & H5)
    end;
    unfold bind; destruct (_throttle _ _) as [[[]|e'] r']; simpl in *;
    try discriminate; rewrite ?H2, ?H3, ?H4, ?H5; repeat split; reflexivity.
Qed.

(** C4, on the code. Whatever the backend does at any attempt,
    [_new_chat] returns without raising after exactly one post: the
    [return] of the [finally] suite ends the first iteration of the loop
    over [range(3)]. When that post fails, the message numbered 1/3 is
    logged and the conversation id is left as it was. *)
Theorem new_chat_single_attempt (net : nat -> NewChatPost) (r : Run) :
  let out := _new_chat net r in
  fst out = Ok tt
  /\ wire (env (snd out)) = wire (env r) ++ [(clock (env r), NewConversation _api_route)]
  /\ match conversation (net 0) with
     | Ok id =>
         _chat_id (obj (snd out)) = Some id
         /\ logged (env (snd out)) = logged (env r)
     | Raise e =>
         _chat_id (obj (snd out)) = _chat_id (obj r)
         /\ logged (env (snd out))
            = logged (env r)
              ++ [{| level := Error; sender := LOG_NAME;
                     content := "Failed to create new chat (1/3)";
                     error := Some e; long_content := false |}]
     end.
Proof.
  destruct (new_chat_body_spec 3 net 0 r) as (Hret & _ & Hwire & Hid).
  unfold _new_chat. simpl. unfold bind.
  destruct (_new_chat_body 3 net 0 r) as [[[]|e] r']; simpl in *;
    try discriminate.
  split; [reflexivity |]. split; [exact Hwire |]. exact Hid.
Qed.

Lemma new_chat_flaky_gives_up :
  let out := _new_chat Examples.flaky Examples.fresh in
  fst out = Ok tt
  /\ _chat_id (obj (snd out)) = None
  /\ length (wire (env (snd out))) = 1
  /\ conversation (Examples.flaky 1) = Ok "abc".
Proof. vm_compute. repeat split; reflexivity. Qed.

Lemma new_chat_prompts (net : nat -> NewChatPost) (r : Run) :
  fst (_new_chat net r) = Ok tt
  /\ prompts_of (obj (snd (_new_chat net r))) = prompts_of (obj r).
Proof.
  destruct (new_chat_body_spec 3 net 0 r) as (Hret & Hp & _).
  unfold _new_chat. simpl. unfold bind.
  destruct (_new_chat_body 3 net 0 r) as [[[]|e] r']; simpl in *;
    try discriminate.
  split; [reflexivity | exact Hp].
Qed.

Lemma set_session_prompts (net : ProbeGet) (r : Run) :
  prompts_of (obj (snd (_set_session net r))) = prompts_of (obj r).
Proof.
  unfold _set_session, try_except, session_call, bind, modify, raise, ret, _log.
  simpl. destruct (probed net); reflexivity.
Qed.

Variable Preprompts_default : string.

Lemma clear_prompts_spec (r : Run) :
  _clear_prompts Preprompts_default r
  = (Ok tt,
     {| obj := {| _throttle_time := _throttle_time (obj r);
                  _time_of_last_prompt := _time_of_last_prompt (obj r);
                  _raw_history := []; _chat_history := []; _split_history := [];
                  _preprompt := Preprompts_default;
                  _chat_id := _chat_id (obj r); _chat_url := _chat_url (obj r) |};
        env := env r |}).
Proof. reflexivity. Qed.

(** C10. A session start, by [__aenter__] or [ainit], first clears:
    before anything is sent the three histories are empty and the preprompt
    is the default text, whatever [set_preprompt] stored; the probe and the
    request for a conversation leave them so, whether they succeed or
    fail. *)
Theorem session_start_resets (net : Start) (stored : string) (r : Run) :
  let cleared := snd (_clear_prompts Preprompts_default r) in
  let out := __aenter__ Preprompts_default net r in
  prompts_of (obj cleared) = ([], [], [], Preprompts_default)
  /\ env cleared = env r
  /\ out = (_set_session (probe net) ;;; _new_chat (posts net)) cleared
  /\ prompts_of (obj (snd out)) = ([], [], [], Preprompts_default)
  /\ ainit Preprompts_default net r = out
  /\ prompts_of
       (obj (snd (__aenter__ Preprompts_default net (snd (set_preprompt stored r)))))
     = ([], [], [], Preprompts_default).
Proof.
  assert (Hgen : forall r0,
    prompts_of (obj (snd (__aenter__ Preprompts_default net r0)))
    = ([], [], [], Preprompts_default)).
  { intros r0. unfold __aenter__. unfold bind at 1.
    rewrite clear_prompts_spec. unfold bind.
    match goal with
    | |- context [_set_session ?n ?x] =>
        pose proof (set_session_prompts n x) as Hs;
        destruct (_set_session n x) as [[[]|e] r1]
    end; simpl in Hs |- *.
    - destruct (new_chat_prompts (posts net) r1) as [_ Hn].
      rewrite Hn. exact Hs.
    - exact Hs. }
  intros cleared out. split; [reflexivity |]. split; [reflexivity |].
  split; [reflexivity |]. split; [apply Hgen |]. split; [reflexivity |].
  apply Hgen.
Qed.

End SessionFacts.

(** ** huggingchat.py: [chat] *)

Section ChatFacts.
Import HuggingChat.

Lemma throttle_spec (over : N) (r : Run) :
  let r' := snd (_throttle over r) in
  _time_of_last_prompt (obj r') = clock (env r')
  /\ (_time_of_last_prompt (obj r) + _throttle_time (obj r)
      <= _time_of_last_prompt (obj r'))%Z
  /\ _throttle_time (obj r') = _throttle_time (obj r)
  /\ (clock (env r) <= clock (env r'))%Z.
Proof.
  unfold _throttle, bind, gets, modify, asyncio_sleep, ret; simpl.
  destruct (_ <? _)%Z eqn:Hlt; simpl.
  - apply Z.ltb_lt in Hlt. repeat split; lia.
  - apply Z.ltb_ge in Hlt. repeat split; lia.
Qed.

Lemma update_history_throttle_attrs (prompts : list Prompt) (r : Run) :
  let r' := snd (_update_history prompts r) in
  _throttle_time (obj r') = _throttle_time (obj r)
  /\ _time_of_last_prompt (obj r') = _time_of_last_prompt (obj r)
  /\ _chat_url (obj r') = _chat_url (obj r)
  /\ env r' = env r.
Proof.
  unfold _update_history, bind, modify, gets; simpl.
  destruct (map (split space) (_format_prompts prompts)) as [|ws [|ws' rest]];
    repeat split; reflexivity.
Qed.

Lemma parse_lines_state (lines : list StreamLine) (out : string) (r : Run) :
  snd (parse_lines lines out r) = r.
Proof.
  revert out. induction lines as [|[e|o] lines IH]; intros out; simpl;
    [reflexivity | reflexivity |].
  destruct (o !! "generated_text"); [apply IH |].
  destruct (o !! "error"); [reflexivity | apply IH].
Qed.

Lemma request_response_obj (prompt_content : string) (net : Post) (r : Run) :
  obj (snd (_request_response prompt_content net r)) = obj r.
Proof.
  unfold _request_response, get_chat_url, session_call, _parse_response.
  unfold bind, gets, modify, ret, raise, _log; simpl.
  destruct (_chat_url (obj r)) as [u|] eqn:Hu; simpl; rewrite ?Hu; simpl;
    [| reflexivity].
  destruct (posted net) as [resp|e]; [| reflexivity]. simpl.
  destruct (decide (status_code resp = 200%Z)); simpl.
  - destruct (parse_lines _ _ _) as [[]] eqn:Hp;
      apply (f_equal snd) in Hp; rewrite parse_lines_state in Hp; simpl in Hp;
      by subst.
  - destruct (parse_lines _ _ _) as [[]] eqn:Hp;
      apply (f_equal snd) in Hp; rewrite parse_lines_state in Hp; simpl in Hp;
      by subst.
Qed.

Lemma log_obj content lvl err long (r : Run) :
  obj (snd (_log content lvl err long r)) = obj r.
Proof. reflexivity. Qed.

Lemma throttle_returns (over : N) (r : Run) : fst (_throttle over r) = Ok tt.
Proof.
  unfold _throttle, bind, gets, modify, asyncio_sleep, ret; simpl.
  by destruct (_ <? _)%Z.
Qed.

(** The run of [chat] once [_update_history] has returned: the state just
    before the [finally] suite, and the value of the local [resp]. *)
Lemma chat_unfold (prompts : list Prompt) (net : Post) (r : Run) :
  chat prompts net r
  = match _update_history prompts r with
    | (Raise e, r0) => (Raise e, r0)
    | (Ok _, r0) =>
        let '(resp, r') :=
          match _request_response (_build_prompt (obj r0)) net r0 with
          | (Raise e, r1) =>
              ("", snd (_log MessageTemplates.post_failed Error (Some e) false r1))
          | (Ok resp, r1) =>
              (resp, snd (_update_history
                            [{| author := "assistant"; Assistant.content := resp |}] r1))
          end in
        (Ok resp, snd (_throttle (oversleep net) r'))
    end.
Proof.
  unfold chat. unfold bind at 1.
  destruct (_update_history prompts r) as [[[]|e] r0]; [| reflexivity].
  unfold bind at 1. unfold gets at 1.
  destruct (_request_response _ net r0) as [[resp|e] r1];
    unfold bind, ret;
    match goal with
    | |- context [_throttle ?o ?x] =>
        pose proof (throttle_returns o x) as Ht;
        destruct (_throttle o x) as [[[]|e'] r2]
    end; simpl in *; congruence.
Qed.

(** What [_throttle] does to the clock: it sleeps for what is missing to
    [_throttle_time] since the timestamp, and for nothing else. *)
Lemma throttle_clock (over : N) (r : Run) :
  clock (env (snd (_throttle over r)))
  = (if (clock (env r) - _time_of_last_prompt (obj r) <? _throttle_time (obj r))%Z
     then clock (env r)
          + (_throttle_time (obj r) - (clock (env r) - _time_of_last_prompt (obj r)))
          + Z.of_N over
     else clock (env r))%Z.
Proof.
  unfold _throttle, bind, gets, modify, asyncio_sleep, ret; simpl.
  destruct (_ <? _)%Z eqn:Hlt; simpl; lia.
Qed.

Lemma throttle_keeps (over : N) (r : Run) :
  wire (env (snd (_throttle over r))) = wire (env r)
  /\ logged (env (snd (_throttle over r))) = logged (env r).
Proof.
  unfold _throttle, bind, gets, modify, asyncio_sleep, ret; simpl.
  by destruct (_ <? _)%Z.
Qed.

Lemma chat_entering_finally (prompts : list Prompt) (net : Post) (r : Run) (resp : string) :
  fst (chat prompts net r) = Ok resp ->
  snd (chat prompts net r)
  = snd (_throttle (oversleep net) (Conversation.entering_finally prompts net r))
  /\ _time_of_last_prompt (obj (Conversation.entering_finally prompts net r))
     = _time_of_last_prompt (obj r)
  /\ _throttle_time (obj (Conversation.entering_finally prompts net r))
     = _throttle_time (obj r).
Proof.
  rewrite chat_unfold. unfold Conversation.entering_finally.
  destruct (update_history_throttle_attrs prompts r) as (Htt & Hlast & _ & _).
  destruct (_update_history prompts r) as [[[]|e] r0]; [| discriminate].
  simpl in Htt, Hlast. intros _.
  pose proof (request_response_obj (_build_prompt (obj r0)) net r0) as Hobj.
  destruct (_request_response _ net r0) as [[resp'|e] r1]; simpl in Hobj.
  - destruct (update_history_throttle_attrs
                [{| author := "assistant"; Assistant.content := resp' |}] r1)
      as (Htt' & Hlast' & _ & _).
    cbv beta iota zeta in *. cbn [snd].
    split; [reflexivity |]. by rewrite Hlast', Htt', Hobj.
  - cbv beta iota zeta. cbn [snd].
    split; [reflexivity |]. by rewrite !log_obj, Hobj.
Qed.

(** C3, as amended. When [chat] returns, with the reply or with the empty
    string of a failed request, it has throttled, in the [finally] suite:
    with [dt] the time elapsed since the timestamp when the suite starts,
    it has slept for [_throttle_time - dt], the remaining deficit (and for
    what the sleep overshoots), when [dt] is less than [_throttle_time],
    and not at all otherwise, sending and logging nothing meanwhile; it has
    then set the timestamp to the time at the end of the call, which so
    lies at least [_throttle_time] after the timestamp the call found;
    [__init__] sets that interval to 500 ms. *)
Theorem chat_throttles_at_end
    (prompts : list Prompt) (net : Post) (r : Run) (resp : string) :
  fst (chat prompts net r) = Ok resp ->
  let before := Conversation.entering_finally prompts net r in
  let r' := snd (chat prompts net r) in
  let dt := (clock (env before) - _time_of_last_prompt (obj r))%Z in
  r' = snd (_throttle (oversleep net) before)
  /\ clock (env r')
     = (if (dt <? _throttle_time (obj r))%Z
        then clock (env before) + (_throttle_time (obj r) - dt) + Z.of_N (oversleep net)
        else clock (env before))%Z
  /\ wire (env r') = wire (env before)
  /\ logged (env r') = logged (env before)
  /\ _time_of_last_prompt (obj r') = clock (env r')
  /\ (_time_of_last_prompt (obj r) + _throttle_time (obj r)
      <= _time_of_last_prompt (obj r'))%Z
  /\ _throttle_time (obj r') = _throttle_time (obj r)
  /\ forall w, _throttle_time (__init__ w) = 500000%Z.
Proof.
  intros Hok.
  destruct (chat_entering_finally prompts net r resp Hok) as (Heq & Hlast & Htt).
  cbv zeta. rewrite Heq.
  pose proof (throttle_clock (oversleep net)
                (Conversation.entering_finally prompts net r)) as Hclock.
  destruct (throttle_keeps (oversleep net)
              (Conversation.entering_finally prompts net r)) as (Hwire & Hlog).
  destruct (throttle_spec (oversleep net)
              (Conversation.entering_finally prompts net r)) as (H1 & H2 & H3 & _).
  rewrite Hlast, Htt in Hclock, H2. rewrite Htt in H3.
  split; [reflexivity |]. split; [exact Hclock |]. split; [exact Hwire |].
  split; [exact Hlog |]. split; [exact H1 |]. split; [exact H2 |].
  split; [exact H3 | reflexivity].
Qed.

Lemma chat_throttles_at_end_witness :
  fst (chat [Examples.hello] Examples.unreachable Examples.started) = Ok ""
  /\ clock (env (Conversation.entering_finally
                   [Examples.hello] Examples.unreachable Examples.started))
     = 750000%Z
  /\ clock (env (snd (chat [Examples.hello] Examples.unreachable Examples.started)))
     = 1050000%Z.
Proof.
  assert (H : fst (chat [Examples.hello] Examples.unreachable Examples.started) = Ok "")
    by (vm_compute; reflexivity).
  split; [exact H |]. split; [vm_compute; reflexivity |].
  destruct (chat_throttles_at_end [Examples.hello] Examples.unreachable
              Examples.started "" H) as (_ & Hclock & _).
  rewrite Hclock. vm_compute. reflexivity.
Defined.

(** C3, as stated, fails. A session started at time 0 against a backend
    that answers the probe in 400 ms and the conversation request in 150 ms,
    then one [chat]: the conversation request leaves at 400 ms and the
    exchange at 550 ms, 150 ms apart, since [_throttle] found 550 ms elapsed
    since the timestamp of [__init__] and did not sleep. *)
Lemma requests_closer_than_interval :
  wire (env (snd (chat [Examples.hello] Examples.answered Examples.started)))
  = [(0%Z, Probe _base_url);
     (400000%Z, NewConversation _api_route);
     (550000%Z,
      Exchange (_api_route +:+ "/abc")
        (_build_prompt (obj (snd (_update_history [Examples.hello] Examples.started)))))]
  /\ ~ Spec.requests_apart (milliseconds 500)
        (wire (env (snd (chat [Examples.hello] Examples.answered Examples.started)))).
Proof.
  assert (Hw : wire (env (snd (chat [Examples.hello] Examples.answered Examples.started)))
    = [(0%Z, Probe _base_url);
       (400000%Z, NewConversation _api_route);
       (550000%Z,
        Exchange (_api_route +:+ "/abc")
          (_build_prompt (obj (snd (_update_history [Examples.hello] Examples.started)))))])
    by (vm_compute; reflexivity).
  split; [exact Hw |]. rewrite Hw. intros Hapart.
  specialize (Hapart 1 _ _ _ _ eq_refl eq_refl). vm_compute in Hapart.
  by apply Hapart.
Qed.

(** What holds of C5: when [_request_response] raises, for an unset
    conversation url, a post that raises, a line that does not parse or an
    [error] record, [chat] logs the failure with the exception, returns the
    empty string and leaves the histories as [_update_history] of the new
    turns left them. *)
Lemma chat_raised_exchange
    (prompts : list Prompt) (net : Post) (r r0 r1 : Run) (e : PyExc) :
  _update_history prompts r = (Ok tt, r0) ->
  _request_response (_build_prompt (obj r0)) net r0 = (Raise e, r1) ->
  let out := chat prompts net r in
  fst out = Ok ""
  /\ prompts_of (obj (snd out)) = prompts_of (obj r0)
  /\ _raw_history (obj (snd out)) = _raw_history (obj r) ++ prompts
  /\ logged (env (snd out))
     = logged (env r1)
       ++ [{| level := Error; sender := LOG_NAME;
              content := MessageTemplates.post_failed;
              error := Some e; long_content := false |}].
Proof.
  intros Hup Hreq. rewrite chat_unfold, Hup, Hreq. cbv beta iota zeta.
  pose proof (request_response_obj (_build_prompt (obj r0)) net r0) as Hobj.
  rewrite Hreq in Hobj. simpl in Hobj.
  match goal with
  | |- context [_throttle ?o ?x] =>
      destruct (throttle_prompts o x) as (_ & Hp & Hl & _)
  end.
  cbn [fst snd]. rewrite Hl.
  pose proof (update_history_raw prompts r) as Hraw. rewrite Hup in Hraw.
  simpl in Hraw. rewrite log_obj, Hobj in Hp.
  split; [reflexivity |]. split; [exact Hp |]. split; [| reflexivity].
  unfold prompts_of in Hp. injection Hp as Hr _ _ _.
  exact (eq_trans Hr Hraw).
Qed.

Lemma parse_lines_error (o : gmap string string) (err : string)
    (lines : list StreamLine) (out : string) (r : Run) :
  o !! "generated_text" = None ->
  o !! "error" = Some err ->
  parse_lines (Obj o :: lines) out r = (Raise (Exception err), r).
Proof. intros Hg He. simpl. by rewrite Hg, He. Qed.

(** C5, on the code. A response with status 500 and an empty body: the
    status is logged as a failure, but nothing is raised, so [chat] takes
    the [else] suite and appends an assistant turn with empty content to
    the three histories. With status 502 and a fragment in the body the
    text of the fragment is returned and appended as the assistant's. A
    post that raises gives the empty string and no assistant turn. *)
Theorem chat_non_200_appends_assistant_turn :
  let refused := chat [Examples.hello] Examples.refused Examples.started in
  let garbage := chat [Examples.hello] Examples.refused_with_text Examples.started in
  let down := chat [Examples.hello] Examples.unreachable Examples.started in
  fst refused = Ok ""
  /\ logged (env (snd refused))
     = [{| level := Error; sender := LOG_NAME;
           content := "Failed to post request to HuggingChat. Status code: 500";
           error := None; long_content := false |}]
  /\ _raw_history (obj (snd refused))
     = [Examples.hello; {| author := "assistant"; Assistant.content := "" |}]
  /\ _chat_history (obj (snd refused)) = ["<|assistant|></s>"]
  /\ _split_history (obj (snd refused)) = ["<|user|>hello</s>"; "<|assistant|></s>"]
  /\ fst garbage = Ok "Bad Gateway"
  /\ _raw_history (obj (snd garbage))
     = [Examples.hello; {| author := "assistant"; Assistant.content := "Bad Gateway" |}]
  /\ fst down = Ok ""
  /\ _raw_history (obj (snd down)) = [Examples.hello]
  /\ _split_history (obj (snd down)) = ["<|user|>hello</s>"].
Proof. vm_compute. repeat split; reflexivity. Qed.

End ChatFacts.

(** ** adventurer.py: the loop *)

Section LoopFacts.
Import Adventurer.

Lemma suspended_spec (arrivals : list Prompt) (a : Agent) :
  suspended arrivals a = (Ok tt, Spec.arrived arrivals a).
Proof.
  revert a. induction arrivals as [|p arrivals IH]; intros a.
  - destruct a. unfold Spec.arrived; simpl. by rewrite !app_nil_r.
  - simpl. unfold bind at 1.
    unfold chat, bind, _log, _add_to_queue, modify. rewrite IH.
    destruct a, p. unfold Spec.arrived, set_queue, emit; simpl.
    by rewrite <- !app_assoc.
Qed.

Lemma for_each_cb_spec (c : Cycle) (cbs : list Handler) (resp : string) (a : Agent) :
  let out := for_each_cb c cbs resp a in
  fst out = match Spec.first_raise c cbs with
            | Some e => Raise e
            | None => Ok tt
            end
  /\ Spec.core (snd out) = Spec.core a.
Proof.
  revert a. induction cbs as [|[|id] cbs IH]; intros a; simpl.
  - split; reflexivity.
  - unfold bind at 1. unfold _log, modify.
    destruct (IH (emit {| level := Debug; sender := LOG_NAME; content := resp;
                          error := None; long_content := false |} a)) as [H1 H2].
    split; [exact H1 | exact H2].
  - unfold bind at 1. unfold bind at 1. unfold modify.
    destruct (handler_raises c id) as [e|]; simpl.
    + split; reflexivity.
    + destruct (IH (note_broadcast id resp a)) as [H1 H2].
      split; [exact H1 | exact H2].
Qed.

Lemma send_prompts_raise
    (c : Cycle) (p : Prompt) (queue : list Prompt) (a : Agent) (e : PyExc) :
  reply c = Raise e ->
  _send_prompts c (p :: queue) a
  = (Raise e,
     Spec.arrived (during_exchange c)
       (note_exchange (p :: queue)
          (emit {| level := Debug; sender := LOG_NAME;
                   content := MessageTemplates.found_messages (length (p :: queue));
                   error := None; long_content := false |} a))).
Proof.
  intros Hr. unfold _send_prompts, conversation_chat.
  rewrite decide_False by (simpl; lia).
  unfold bind, _log, modify. rewrite suspended_spec, Hr. reflexivity.
Qed.

Lemma send_prompts_ok
    (c : Cycle) (p : Prompt) (queue : list Prompt) (a : Agent) (resp : string) :
  reply c = Ok resp ->
  _send_prompts c (p :: queue) a
  = for_each_cb c (_chat_cbs a) resp
      (Spec.arrived (during_broadcast c)
         (set_queue []
            (emit {| level := Debug; sender := LOG_NAME;
                     content := MessageTemplates.clearing_queue;
                     error := None; long_content := false |}
               (emit {| level := Debug; sender := LOG_NAME;
                        content := MessageTemplates.response_received resp;
                        error := None; long_content := true |}
                  (Spec.arrived (during_exchange c)
                     (note_exchange (p :: queue)
                        (emit {| level := Debug; sender := LOG_NAME;
                                 content :=
                                   MessageTemplates.found_messages (length (p :: queue));
                                 error := None; long_content := false |} a))))))).
Proof.
  intros Hr. unfold _send_prompts, conversation_chat.
  rewrite decide_False by (simpl; lia).
  unfold bind, _log, modify, _clear_queue, gets. rewrite suspended_spec, Hr.
  cbv beta iota delta [ret modify]. rewrite suspended_spec. reflexivity.
Qed.

(** One cycle: the state with which the [finally] suite is entered, and
    the task it creates. *)
Lemma loop_unfold (c : Cycle) (a : Agent) :
  _conversation_loop c a
  = let a1 := Spec.arrived (during_sleep c) a in
    let queue := _conversation_queue a1 in
    let a2 := note_snapshot queue a1 in
    let a3 :=
      match _send_prompts c queue a2 with
      | (Ok _, a') => a'
      | (Raise e, a') =>
          Spec.arrived (during_error_log c) (emit (Spec.chat_error_message e) a')
      end in
    (Ok tt, set_pending (S (pending a3)) a3).
Proof.
  unfold _conversation_loop. unfold bind at 1. rewrite suspended_spec.
  unfold bind at 1. unfold gets at 1. unfold bind at 1. unfold modify at 1.
  unfold finally_return, try_except. cbv zeta.
  destruct (_send_prompts c _ _) as [[[]|e] a']; cbn [snd].
  - reflexivity.
  - unfold bind at 2. unfold _log, modify. rewrite suspended_spec. reflexivity.
Qed.

Lemma chat_error_logged (e : PyExc) (arrivals : list Prompt) (a : Agent) :
  Spec.chat_error_message e
  ∈ logged (Spec.arrived arrivals (emit (Spec.chat_error_message e) a)).
Proof.
  simpl. apply elem_of_app; left. apply elem_of_app; right.
  apply list_elem_of_here.
Qed.

(** One cycle, case by case. *)
Lemma loop_cycle (c : Cycle) (a : Agent) :
  let queue := _conversation_queue a ++ during_sleep c in
  let out := _conversation_loop c a in
  fst out = Ok tt
  /\ _chat_cbs (snd out) = _chat_cbs a
  /\ pending (snd out) = S (pending a)
  /\ snapshots (snd out) = snapshots a ++ [queue]
  /\ match queue, reply c with
     | [], _ =>
         exchanges (snd out) = exchanges a
         /\ _conversation_queue (snd out) = []
     | _ :: _, Raise e =>
         exchanges (snd out) = exchanges a ++ [queue]
         /\ _conversation_queue (snd out)
            = queue ++ during_exchange c ++ during_error_log c
         /\ Spec.chat_error_message e ∈ logged (snd out)
     | _ :: _, Ok resp =>
         exchanges (snd out) = exchanges a ++ [queue]
         /\ match Spec.first_raise c (_chat_cbs a) with
            | None => _conversation_queue (snd out) = during_broadcast c
            | Some e =>
                _conversation_queue (snd out)
                = during_broadcast c ++ during_error_log c
                /\ Spec.chat_error_message e ∈ logged (snd out)
            end
     end.
Proof.
  intros queue out. subst out queue. rewrite loop_unfold. cbv zeta.
  change (_conversation_queue (Spec.arrived (during_sleep c) a))
    with (_conversation_queue a ++ during_sleep c).
  remember (_conversation_queue a ++ during_sleep c) as queue eqn:Hq.
  destruct queue as [|p rest].
  - simpl. rewrite <- Hq. repeat split; reflexivity.
  - destruct (reply c) as [resp|e] eqn:Hr.
    + rewrite (send_prompts_ok _ _ _ _ _ Hr).
      match goal with
      | |- context [for_each_cb c ?cbs resp ?x] =>
          destruct (for_each_cb_spec c cbs resp x) as [Hres Hcore];
          destruct (for_each_cb c cbs resp x) as [res a']
      end.
      cbn [fst snd] in Hres, Hcore. unfold Spec.core in Hcore.
      injection Hcore as Hqueue Hcbs Hsnap Hexch Hpend.
      cbn [_chat_cbs note_snapshot Spec.arrived] in Hres.
      destruct (Spec.first_raise c (_chat_cbs a)) as [e|]; subst res; simpl;
        rewrite ?Hqueue, ?Hcbs, ?Hsnap, ?Hexch, ?Hpend; simpl.
      * repeat split; try reflexivity. apply (chat_error_logged e _ a').
      * repeat split; reflexivity.
    + rewrite (send_prompts_raise _ _ _ _ _ Hr). simpl.
      repeat split; try reflexivity.
      * by rewrite <- Hq, <- app_assoc.
      * apply elem_of_app; left. apply elem_of_app; right.
        apply list_elem_of_here.
Qed.



(** The queue after one cycle, case by case. The copy is what the queue
    held when the cycle woke. With an empty copy nothing is sent. When the
    assistant raises, [_clear_queue] is not reached: the queue keeps the
    entries of the copy, followed by what was submitted meanwhile. When it
    replies, [_clear_queue] empties the queue, whatever was submitted during
    the exchange included, and the queue holds what was submitted after
    that. *)
Lemma queue_after_cycle (c : Cycle) (a : Agent) :
  let queue := _conversation_queue a ++ during_sleep c in
  let a' := snd (_conversation_loop c a) in
  snapshots a' = snapshots a ++ [queue]
  /\ match queue, reply c with
     | [], _ =>
         exchanges a' = exchanges a
         /\ _conversation_queue a' = []
     | _ :: _, Raise e =>
         exchanges a' = exchanges a ++ [queue]
         /\ _conversation_queue a'
            = queue ++ during_exchange c ++ during_error_log c
     | _ :: _, Ok resp =>
         exchanges a' = exchanges a ++ [queue]
         /\ _conversation_queue a'
            = during_broadcast c
              ++ match Spec.first_raise c (_chat_cbs a) with
                 | None => []
                 | Some _ => during_error_log c
                 end
     end.
Proof.
  intros queue a'.
  destruct (loop_cycle c a) as (_ & _ & _ & Hsnap & Hcase).
  fold queue a' in Hsnap, Hcase. split; [exact Hsnap |].
  destruct queue as [|p rest]; [exact Hcase |].
  destruct (reply c) as [resp|e].
  - destruct Hcase as [Hex Hq]. split; [exact Hex |].
    destruct (Spec.first_raise c (_chat_cbs a)) as [e|].
    + by destruct Hq as [-> _].
    + by rewrite Hq, app_nil_r.
  - destruct Hcase as (Hex & Hq & _). by split.
Qed.

(** C1, on the code. "hello" is queued; while the first cycle awaits the
    assistant, [again] is submitted; the assistant replies, and
    [_clear_queue()], which stands after the exchange, empties the live
    queue, [again] included. The first copy is "hello" and the second is
    empty: [again] is handed to the assistant in no cycle, and the drain as
    the specification words it does not hold. In the sibling path, where
    the assistant raises, nothing is cleared and [again] is in the second
    copy, after "hello", which is sent a second time. *)
Theorem entry_submitted_during_exchange_is_dropped :
  _conversation_queue Examples.waiting = [Examples.hello]
  /\ during_exchange Examples.busy = [Examples.again]
  /\ snapshots (run [Examples.busy; Examples.quiet] Examples.waiting)
     = [[Examples.hello]; []]
  /\ exchanges (run [Examples.busy; Examples.quiet] Examples.waiting)
     = [[Examples.hello]]
  /\ _conversation_queue (run [Examples.busy; Examples.quiet] Examples.waiting) = []
  /\ ~ Spec.drain_clears_at_snapshot Examples.waiting Examples.busy Examples.quiet
  /\ snapshots (run [Scenarios.busy_failing; Examples.quiet] Examples.waiting)
     = [[Examples.hello]; [Examples.hello; Examples.again]].
Proof.
  assert (Hrun : snapshots (run [Examples.busy; Examples.quiet] Examples.waiting)
                 = [[Examples.hello]; []]) by (vm_compute; reflexivity).
  split; [vm_compute; reflexivity |]. split; [reflexivity |].
  split; [exact Hrun |]. split; [vm_compute; reflexivity |].
  split; [vm_compute; reflexivity |]. split; [| vm_compute; reflexivity].
  unfold Spec.drain_clears_at_snapshot. rewrite Hrun. vm_compute. discriminate.
Qed.

Lemma entries_resent_after_failure :
  snapshots (run [Examples.failing; Examples.quiet] Examples.waiting)
    = [[Examples.hello]; [Examples.hello]]
  /\ exchanges (run [Examples.failing; Examples.quiet] Examples.waiting)
    = [[Examples.hello]; [Examples.hello]]
  /\ exchanges (run [Examples.busy; Examples.quiet] Examples.waiting)
    = [[Examples.hello]]
  /\ _conversation_queue (run [Examples.busy; Examples.quiet] Examples.waiting) = [].
Proof. vm_compute. repeat split; reflexivity. Qed.


End LoopFacts.

(** ** huggingchat.py: words, joined and split *)

Section WindowFacts.
Import HuggingChat Conversation.

Lemma split_nonempty (sep : ascii) (s : string) : split sep s <> [].
Proof.
  destruct s as [|a s]; simpl; [done |].
  destruct (decide (a = sep)); [done |]. by destruct (split sep s).
Qed.

Lemma concat_cons (sep x : string) (l : list string) :
  l <> [] -> String.concat sep (x :: l) = x +:+ sep +:+ String.concat sep l.
Proof. by destruct l. Qed.

Lemma concat_split (s : string) : String.concat " " (split space s) = s.
Proof.
  induction s as [|a s IH]; [reflexivity |]. simpl split.
  destruct (decide (a = space)) as [->|Hne].
  - rewrite concat_cons by apply split_nonempty. by rewrite IH.
  - pose proof (split_nonempty space s) as Hs.
    destruct (split space s) as [|w ws]; [done |].
    destruct ws as [|w' ws].
    + simpl in IH |- *. by rewrite IH.
    + rewrite concat_cons in IH by done. rewrite concat_cons by done.
      rewrite append_cons. by rewrite IH.
Qed.

Lemma concat_app (sep : string) (l1 l2 : list string) :
  l1 <> [] -> l2 <> [] ->
  String.concat sep (l1 ++ l2)
  = String.concat sep l1 +:+ sep +:+ String.concat sep l2.
Proof.
  intros H1 H2. induction l1 as [|x l1 IH]; [done |].
  destruct l1 as [|y l1].
  - simpl app. by rewrite concat_cons.
  - rewrite <- app_comm_cons. rewrite concat_cons by done.
    rewrite IH by done. rewrite (concat_cons sep x (y :: l1)) by done.
    by rewrite !append_assoc.
Qed.

Lemma split_no_space (s : string) :
  Forall (fun w => has_space w = false) (split space s).
Proof.
  induction s as [|a s IH]; simpl.
  - by repeat constructor.
  - destruct (decide (a = space)) as [->|Hne]; [by constructor |].
    pose proof (split_nonempty space s) as Hs.
    destruct (split space s) as [|w ws]; [done |].
    inversion IH as [|? ? Hw Hws]; subst. constructor; [| done].
    simpl. by rewrite decide_False.
Qed.

Lemma words_join (turns : list Prompt) :
  String.concat " " (flat_map (fun p => split space (format_prompt p)) turns)
  = String.concat " " (map format_prompt turns).
Proof.
  induction turns as [|p turns IH]; [reflexivity |].
  simpl flat_map. simpl map. destruct turns as [|q turns].
  - simpl. rewrite app_nil_r. apply concat_split.
  - rewrite concat_app.
    + rewrite IH, concat_split. by rewrite concat_cons.
    + apply split_nonempty.
    + simpl. intros Hnil. apply app_eq_nil in Hnil as [Hnil _].
      by apply split_nonempty in Hnil.
Qed.

Lemma updates_spec (turns : list Prompt) (r : Run) :
  _split_history (obj (updates turns r))
  = _split_history (obj r)
    ++ flat_map (fun p => split space (format_prompt p)) turns
  /\ _raw_history (obj (updates turns r)) = _raw_history (obj r) ++ turns
  /\ _preprompt (obj (updates turns r)) = _preprompt (obj r)
  /\ env (updates turns r) = env r.
Proof.
  revert r. induction turns as [|p turns IH]; intros r.
  - simpl. by rewrite !app_nil_r.
  - change (updates (p :: turns) r)
      with (updates turns (snd (_update_history [p] r))).
    destruct (IH (snd (_update_history [p] r))) as (H1 & H2 & H3 & H4).
    rewrite H1, H2, H3, H4. destruct (update_history_one p r) as [_ Hone].
    rewrite Hone, update_history_raw. simpl flat_map.
    by rewrite <- !app_assoc.
Qed.

Lemma slice_from_short {A} (l : list A) :
  length l <= 1024 -> slice_from (- Parameters.max_new_tokens) l = l.
Proof.
  intros Hl. change (- Parameters.max_new_tokens)%Z with (- Z.of_nat 1024)%Z.
  rewrite slice_from_last by lia.
  replace (length l - 1024) with 0 by lia. reflexivity.
Qed.

(** X1. Over a session whose window started empty, after any turns were
    added one by one and while the window holds at most 1024 words, the
    prompt is the preprompt, the separator, the formatted turns in order
    with one space between them, and the assistant token: splitting into
    words and joining them again loses nothing. *)
Theorem prompt_reproduces_turns (turns : list Prompt) (r : Run) :
  _split_history (obj r) = [] ->
  length (_split_history (obj (updates turns r))) <= 1024 ->
  _build_prompt (obj (updates turns r))
  = _preprompt (obj r) +:+ PREPROMPT_SEP
    +:+ String.concat " " (map format_prompt turns)
    +:+ ASSISTANT_MESSAGE_TOKEN.
Proof.
  intros Hempty Hlen. destruct (updates_spec turns r) as (Hs & _ & Hp & _).
  unfold _build_prompt. rewrite slice_from_short by exact Hlen.
  rewrite Hs, Hempty, Hp. simpl app. rewrite words_join.
  by rewrite append_assoc.
Qed.

Lemma prompt_reproduces_turns_witness :
  _build_prompt
    (obj (updates [Examples.hello;
                   {| author := "assistant"; Assistant.content := "Well met." |}]
            Examples.started))
  = Examples.default_text +:+ PREPROMPT_SEP
    +:+ "<|user|>hello</s> <|assistant|>Well met.</s>"
    +:+ ASSISTANT_MESSAGE_TOKEN.
Proof.
  apply (prompt_reproduces_turns
           [Examples.hello;
            {| author := "assistant"; Assistant.content := "Well met." |}]
           Examples.started).
  - reflexivity.
  - vm_compute. lia.
Defined.

End WindowFacts.

(** ** huggingchat.py: the stream and the paths of [chat] *)

Section ExchangeFacts.
Import HuggingChat Conversation.

Lemma append_nil_r (s : string) : s +:+ "" = s.
Proof. induction s as [|a s IH]; [reflexivity |]. by rewrite append_cons, IH. Qed.

Lemma concat_empty_cons (t : string) (ts : list string) :
  String.concat "" (t :: ts) = t +:+ String.concat "" ts.
Proof. destruct ts; [by rewrite append_nil_r | reflexivity]. Qed.

Lemma parse_lines_app (l1 l2 : list StreamLine) (out : string) (r : Run) :
  parse_lines (l1 ++ l2) out r
  = (out1 <- parse_lines l1 out ;; parse_lines l2 out1) r.
Proof.
  revert out. induction l1 as [|[e|o] l1 IH]; intros out; simpl;
    [reflexivity | reflexivity |].
  destruct (o !! "generated_text"); [apply IH |].
  destruct (o !! "error"); [reflexivity | apply IH].
Qed.

Lemma parse_lines_carries (lines : list StreamLine) (texts : list string)
    (out : string) (r : Run) :
  Forall2 carries lines texts ->
  parse_lines lines out r = (Ok (out +:+ String.concat "" texts), r).
Proof.
  intros H. revert out.
  induction H as [|line text lines texts (o & -> & Ho) _ IH]; intros out.
  - simpl. by rewrite append_nil_r.
  - rewrite concat_empty_cons. cbn [parse_lines].
    rewrite Ho, IH. by rewrite append_assoc.
Qed.

Lemma parse_lines_passes (lines : list StreamLine) (out : string) (r : Run) :
  Forall passes lines -> exists out', parse_lines lines out r = (Ok out', r).
Proof.
  intros H. revert out.
  induction H as [|line lines (o & -> & Ho) _ IH]; intros out; simpl.
  - by exists out.
  - destruct (o !! "generated_text") as [text|]; [apply IH |].
    destruct Ho as [[? ?]|Ho]; [done |]. rewrite Ho. apply IH.
Qed.

Lemma parse_response_carries
    (resp : Response) (texts : list string) (r : Run) :
  Forall2 carries (iter_lines resp) texts ->
  fst (_parse_response resp r) = Ok (String.concat "" texts)
  /\ obj (snd (_parse_response resp r)) = obj r
  /\ wire (env (snd (_parse_response resp r))) = wire (env r)
  /\ logged (env (snd (_parse_response resp r)))
     = logged (env r)
       ++ (if decide (status_code resp = 200%Z) then []
           else [{| level := Error; sender := LOG_NAME;
                    content := MessageTemplates.post_failed +:+ ". Status code: "
                               +:+ pretty (status_code resp);
                    error := None; long_content := false |}]).
Proof.
  intros H. unfold _parse_response, bind, _log, modify, ret.
  destruct (decide (status_code resp = 200%Z)); simpl;
    rewrite (parse_lines_carries _ _ _ _ H); simpl;
    rewrite ?app_nil_r; done.
Qed.

(** X2. When every line of the body carries text, [_parse_response]
    returns the texts put together in the order of the lines, also when a
    line has an [error] key besides; the adapter is left as it was, and a
    status other than 200 only adds its log entry. *)
Theorem parse_response_gathers_text
    (resp : Response) (texts : list string) (r : Run) :
  Forall2 carries (iter_lines resp) texts ->
  fst (_parse_response resp r) = Ok (String.concat "" texts)
  /\ obj (snd (_parse_response resp r)) = obj r
  /\ wire (env (snd (_parse_response resp r))) = wire (env r)
  /\ logged (env (snd (_parse_response resp r)))
     = logged (env r)
       ++ (if decide (status_code resp = 200%Z) then []
           else [{| level := Error; sender := LOG_NAME;
                    content := MessageTemplates.post_failed +:+ ". Status code: "
                               +:+ pretty (status_code resp);
                    error := None; long_content := false |}]).
Proof. apply parse_response_carries. Qed.

Lemma parse_response_gathers_text_witness :
  fst (_parse_response
         {| status_code := 200;
            iter_lines := [Obj {[ "generated_text" := "Well " ]};
                           Obj (<[ "error" := "ignored" ]>
                                  {[ "generated_text" := "met." ]})] |}
         Examples.started)
  = Ok "Well met.".
Proof.
  apply (parse_response_gathers_text
           {| status_code := 200;
              iter_lines := [Obj {[ "generated_text" := "Well " ]};
                             Obj (<[ "error" := "ignored" ]>
                                    {[ "generated_text" := "met." ]})] |}
           ["Well "; "met."] Examples.started).
  repeat constructor.
  - exists {[ "generated_text" := "Well " ]}. split; [reflexivity |].
    vm_compute. reflexivity.
  - exists (<[ "error" := "ignored" ]> {[ "generated_text" := "met." ]}).
    split; [reflexivity |]. vm_compute. reflexivity.
Defined.

Lemma parse_response_error
    (before after : list StreamLine) (o : gmap string string) (err : string)
    (status : Z) (r : Run) :
  Forall passes before ->
  o !! "generated_text" = None ->
  o !! "error" = Some err ->
  fst (_parse_response
         {| status_code := status; iter_lines := before ++ Obj o :: after |} r)
  = Raise (Exception err).
Proof.
  intros Hb Hg He. unfold _parse_response, bind, _log, modify, ret.
  destruct (decide (_ = 200%Z)); simpl; rewrite parse_lines_app; unfold bind;
    match goal with
    | |- context [parse_lines before ?out ?x] =>
        destruct (parse_lines_passes before out x Hb) as [out' ->]
    end; by rewrite (parse_lines_error o err after out' _ Hg He).
Qed.

(** X3. An [error] record without text ends the parse with
    [Exception(error)] whatever lines follow it, and the text gathered
    from the lines before it is lost. *)
Theorem parse_error_record_discards_text
    (before after : list StreamLine) (o : gmap string string) (err : string)
    (status : Z) (r : Run) :
  Forall passes before ->
  o !! "generated_text" = None ->
  o !! "error" = Some err ->
  fst (_parse_response
         {| status_code := status; iter_lines := before ++ Obj o :: after |} r)
  = Raise (Exception err).
Proof. apply parse_response_error. Qed.

Lemma parse_error_record_discards_text_witness :
  fst (_parse_response
         {| status_code := 200;
            iter_lines := [Obj {[ "generated_text" := "Well " ]}]
                          ++ Obj {[ "error" := "overloaded" ]}
                             :: [Obj {[ "generated_text" := "met." ]}] |}
         Examples.started)
  = Raise (Exception "overloaded").
Proof.
  apply (parse_error_record_discards_text
           [Obj {[ "generated_text" := "Well " ]}]
           [Obj {[ "generated_text" := "met." ]}]
           {[ "error" := "overloaded" ]} "overloaded" 200 Examples.started).
  - repeat constructor. exists {[ "generated_text" := "Well " ]}.
    split; [reflexivity |]. left. vm_compute. by eexists.
  - vm_compute. reflexivity.
  - vm_compute. reflexivity.
Defined.

Lemma request_response_sent (prompt_content url : string) (net : Post) (r : Run) :
  _chat_url (obj r) = Some url ->
  _request_response prompt_content net r
  = let r1 := on_env (tick (Z.of_N (rtt net)))
                (on_env (transmit (Exchange url prompt_content)) r) in
    match posted net with
    | Ok resp => _parse_response resp r1
    | Raise e => (Raise e, r1)
    end.
Proof.
  intros Hu. unfold _request_response, get_chat_url, session_call.
  unfold bind, gets, modify, ret, raise. rewrite Hu. simpl. rewrite Hu.
  by destruct (posted net).
Qed.

Lemma request_response_no_url (prompt_content : string) (net : Post) (r : Run) :
  _chat_url (obj r) = None ->
  _request_response prompt_content net r
  = (Raise (AttributeError "'HuggingChat' object has no attribute '_chat_url'"), r).
Proof.
  intros Hu. unfold _request_response, get_chat_url.
  unfold bind, gets, raise. by rewrite Hu.
Qed.

Lemma throttle_url (over : N) (r : Run) :
  _chat_url (obj (snd (_throttle over r))) = _chat_url (obj r).
Proof.
  unfold _throttle, bind, gets, modify, asyncio_sleep, ret; simpl.
  by destruct (_ <? _)%Z.
Qed.

Lemma update_history_one_eq (p : Prompt) (r : Run) :
  _update_history [p] r = (Ok tt, snd (_update_history [p] r)).
Proof. reflexivity. Qed.

(** The state in which [chat([p])] leaves the adapter, from the state
    [r'] before the [finally] suite. *)
Lemma chat_one_unfold (p : Prompt) (net : Post) (r : Run) :
  chat [p] net r
  = let r0 := snd (_update_history [p] r) in
    let '(resp, r') :=
      match _request_response (_build_prompt (obj r0)) net r0 with
      | (Raise e, r1) =>
          ("", snd (_log MessageTemplates.post_failed Error (Some e) false r1))
      | (Ok resp, r1) =>
          (resp, snd (_update_history
                        [{| author := "assistant"; Assistant.content := resp |}] r1))
      end in
    (Ok resp, snd (_throttle (oversleep net) r')).
Proof. rewrite chat_unfold. by rewrite update_history_one_eq. Qed.

Lemma after_throttle (over : N) (r : Run) :
  _raw_history (obj (snd (_throttle over r))) = _raw_history (obj r)
  /\ _chat_history (obj (snd (_throttle over r))) = _chat_history (obj r)
  /\ _split_history (obj (snd (_throttle over r))) = _split_history (obj r)
  /\ logged (env (snd (_throttle over r))) = logged (env r)
  /\ wire (env (snd (_throttle over r))) = wire (env r).
Proof.
  destruct (throttle_prompts over r) as (_ & Hp & Hl & Hw & _).
  unfold prompts_of in Hp. injection Hp as H1 H2 H3 _. done.
Qed.

(** X4. A one-turn [chat] on a session with a conversation, answered with
    status 200 and lines that all carry text: the reply is the gathered
    text; the raw history gains the turn and then the assistant's reply, the
    window the words of both; one request leaves, at the time of the call,
    with the prompt built after the turn was added; nothing is logged. *)
Theorem chat_success
    (p : Prompt) (net : Post) (r : Run) (url : string) (resp : Response)
    (texts : list string) :
  _chat_url (obj r) = Some url ->
  posted net = Ok resp ->
  status_code resp = 200%Z ->
  Forall2 carries (iter_lines resp) texts ->
  let out := chat [p] net r in
  let answer := {| author := "assistant";
                   Assistant.content := String.concat "" texts |} in
  fst out = Ok (String.concat "" texts)
  /\ _raw_history (obj (snd out)) = _raw_history (obj r) ++ [p; answer]
  /\ _split_history (obj (snd out))
     = _split_history (obj r) ++ split space (format_prompt p)
       ++ split space (format_prompt answer)
  /\ wire (env (snd out))
     = wire (env r)
       ++ [(clock (env r),
            Exchange url (_build_prompt (obj (snd (_update_history [p] r)))))]
  /\ logged (env (snd out)) = logged (env r).
Proof.
  intros Hu Hposted Hstatus Htexts out answer. subst out.
  rewrite chat_one_unfold. cbv zeta.
  set (r0 := snd (_update_history [p] r)).
  destruct (update_history_throttle_attrs [p] r) as (_ & _ & Hu0 & Henv0).
  fold r0 in Hu0, Henv0. rewrite Hu in Hu0.
  rewrite (request_response_sent _ url net r0 Hu0), Hposted. cbv zeta.
  set (r1 := on_env (tick (Z.of_N (rtt net)))
               (on_env (transmit (Exchange url (_build_prompt (obj r0)))) r0)).
  destruct (parse_response_carries resp texts r1 Htexts)
    as (Hres & Hobj & Hwire & Hlog).
  rewrite decide_True in Hlog by exact Hstatus. rewrite app_nil_r in Hlog.
  destruct (_parse_response resp r1) as [res r2]. simpl in Hres, Hobj, Hwire, Hlog.
  subst res. fold answer.
  destruct (after_throttle (oversleep net) (snd (_update_history [answer] r2)))
    as (Hraw & _ & Hsplit & Hlogt & Hwiret).
  destruct (update_history_throttle_attrs [answer] r2) as (_ & _ & _ & Henv2).
  destruct (update_history_one answer r2) as [_ Hsplit2].
  cbn [fst snd]. rewrite Hraw, Hsplit, Hlogt, Hwiret, Henv2.
  rewrite update_history_raw, Hsplit2, Hobj, Hwire, Hlog.
  subst r1. cbn [obj env on_env wire logged transmit tick].
  split; [reflexivity |]. split; [simpl; by rewrite <- app_assoc |].
  split; [simpl; by rewrite <- app_assoc |]. split; reflexivity.
Qed.

Lemma chat_success_witness :
  fst (chat [Examples.hello] Examples.answered Examples.started) = Ok "Well met.".
Proof.
  apply (chat_success Examples.hello Examples.answered Examples.started
           (_api_route +:+ "/abc")
           {| status_code := 200;
              iter_lines := [Obj {[ "generated_text" := "Well " ]};
                             Obj {[ "generated_text" := "met." ]}] |}
           ["Well "; "met."]).
  - vm_compute. reflexivity.
  - reflexivity.
  - reflexivity.
  - repeat constructor.
    + exists {[ "generated_text" := "Well " ]}. split; [reflexivity |].
      vm_compute. reflexivity.
    + exists {[ "generated_text" := "met." ]}. split; [reflexivity |].
      vm_compute. reflexivity.
Defined.

Lemma chat_arity (prompts : list Prompt) (net : Post) (r : Run) :
  length prompts <> 1 ->
  let out := chat prompts net r in
  fst out = Raise (TypeError "list.extend() takes exactly one argument")
  /\ env (snd out) = env r
  /\ _time_of_last_prompt (obj (snd out)) = _time_of_last_prompt (obj r)
  /\ _raw_history (obj (snd out)) = _raw_history (obj r) ++ prompts
  /\ _split_history (obj (snd out)) = _split_history (obj r).
Proof.
  intros Hlen out. subst out. rewrite chat_unfold.
  pose proof (update_history_raw prompts r) as Hraw.
  destruct (update_history_throttle_attrs prompts r) as (_ & Hlast & _ & Henv).
  assert (Hup : fst (_update_history prompts r)
                = Raise (TypeError "list.extend() takes exactly one argument")
                /\ _split_history (obj (snd (_update_history prompts r)))
                   = _split_history (obj r)).
  { destruct prompts as [|p [|q rest]]; [apply update_history_none | done |].
    apply update_history_many. }
  destruct Hup as [Hres Hsplit].
  destruct (_update_history prompts r) as [[[]|e] r0]; simpl in *;
    [discriminate |].
  injection Hres as ->. done.
Qed.

(** X5. [chat] with no turn or with more than one raises [TypeError]
    out of [_update_history], before the [try]: nothing is sent or logged,
    the clock and the timestamp stand still (no throttle), yet the turns are
    already in the raw history, so a caller that retries the same list adds
    them again. *)
Theorem chat_rejects_other_than_one_turn
    (prompts : list Prompt) (net : Post) (r : Run) :
  length prompts <> 1 ->
  let out := chat prompts net r in
  fst out = Raise (TypeError "list.extend() takes exactly one argument")
  /\ env (snd out) = env r
  /\ _time_of_last_prompt (obj (snd out)) = _time_of_last_prompt (obj r)
  /\ _raw_history (obj (snd out)) = _raw_history (obj r) ++ prompts
  /\ _split_history (obj (snd out)) = _split_history (obj r).
Proof. apply chat_arity. Qed.

Lemma chat_rejects_other_than_one_turn_witness :
  fst (chat [Examples.hello; Examples.again] Examples.answered Examples.started)
  = Raise (TypeError "list.extend() takes exactly one argument").
Proof.
  apply (chat_rejects_other_than_one_turn [Examples.hello; Examples.again]
           Examples.answered Examples.started).
  simpl. lia.
Defined.

(** A one-turn [chat] whose request raises: the empty string, the turn
    kept, the failure logged with the exception. *)
Lemma chat_one_raised (p : Prompt) (net : Post) (r r1 : Run) (e : PyExc) :
  _request_response (_build_prompt (obj (snd (_update_history [p] r)))) net
    (snd (_update_history [p] r)) = (Raise e, r1) ->
  let out := chat [p] net r in
  fst out = Ok ""
  /\ _raw_history (obj (snd out)) = _raw_history (obj r) ++ [p]
  /\ _split_history (obj (snd out))
     = _split_history (obj r) ++ split space (format_prompt p)
  /\ _chat_url (obj (snd out)) = _chat_url (obj r)
  /\ wire (env (snd out)) = wire (env r1)
  /\ logged (env (snd out))
     = logged (env r1)
       ++ [{| level := Error; sender := LOG_NAME;
              content := MessageTemplates.post_failed;
              error := Some e; long_content := false |}].
Proof.
  intros Hreq out. subst out. rewrite chat_one_unfold. cbv zeta.
  pose proof (request_response_obj
                (_build_prompt (obj (snd (_update_history [p] r)))) net
                (snd (_update_history [p] r))) as Hobj.
  rewrite Hreq in Hobj |- *. cbn [snd] in Hobj. cbv beta iota. cbn [fst snd].
  match goal with
  | |- context [_throttle ?o ?x] =>
      destruct (after_throttle o x) as (Hraw & _ & Hsplit & Hlog & Hwire);
      pose proof (throttle_url o x) as Hurl
  end.
  rewrite Hraw, Hsplit, Hlog, Hwire, Hurl, !log_obj, Hobj.
  destruct (update_history_one p r) as [_ Hs].
  destruct (update_history_throttle_attrs [p] r) as (_ & _ & Hu & _).
  rewrite update_history_raw, Hs, Hu. repeat split; reflexivity.
Qed.

(** X6. On a session without a conversation (no [_new_chat] ever
    succeeded) a one-turn [chat] sends nothing: [AttributeError] is logged
    as a failed post, the empty string is returned, the turn stays in the
    histories, and the session is still without a conversation, so every
    later [chat] does the same. *)
Theorem chat_without_conversation (p : Prompt) (net : Post) (r : Run) :
  _chat_url (obj r) = None ->
  let out := chat [p] net r in
  fst out = Ok ""
  /\ wire (env (snd out)) = wire (env r)
  /\ logged (env (snd out))
     = logged (env r)
       ++ [{| level := Error; sender := LOG_NAME;
              content := MessageTemplates.post_failed;
              error := Some (AttributeError
                               "'HuggingChat' object has no attribute '_chat_url'");
              long_content := false |}]
  /\ _raw_history (obj (snd out)) = _raw_history (obj r) ++ [p]
  /\ _chat_url (obj (snd out)) = None.
Proof.
  intros Hu out. subst out.
  destruct (update_history_throttle_attrs [p] r) as (_ & _ & Hu0 & Henv0).
  rewrite Hu in Hu0.
  destruct (chat_one_raised p net r _ _ (request_response_no_url _ net _ Hu0))
    as (H1 & H2 & _ & H4 & H5 & H6).
  rewrite H1, H2, H4, H5, H6, Henv0, Hu. repeat split; reflexivity.
Qed.

Lemma chat_without_conversation_witness :
  fst (chat [Examples.hello] Examples.answered Examples.fresh) = Ok "".
Proof.
  apply (chat_without_conversation Examples.hello Examples.answered Examples.fresh).
  reflexivity.
Defined.

(** X7. When the post of the exchange raises, [chat] returns the empty
    string and logs the exception as a failed post; the request did leave,
    the turn stays in the histories and no assistant turn is added. *)
Theorem chat_post_raises
    (p : Prompt) (net : Post) (r : Run) (url : string) (e : PyExc) :
  _chat_url (obj r) = Some url ->
  posted net = Raise e ->
  let out := chat [p] net r in
  fst out = Ok ""
  /\ _raw_history (obj (snd out)) = _raw_history (obj r) ++ [p]
  /\ _split_history (obj (snd out))
     = _split_history (obj r) ++ split space (format_prompt p)
  /\ wire (env (snd out))
     = wire (env r)
       ++ [(clock (env r),
            Exchange url (_build_prompt (obj (snd (_update_history [p] r)))))]
  /\ logged (env (snd out))
     = logged (env r)
       ++ [{| level := Error; sender := LOG_NAME;
              content := MessageTemplates.post_failed;
              error := Some e; long_content := false |}].
Proof.
  intros Hu Hposted out. subst out.
  destruct (update_history_throttle_attrs [p] r) as (_ & _ & Hu0 & Henv0).
  rewrite Hu in Hu0.
  pose proof (request_response_sent
                (_build_prompt (obj (snd (_update_history [p] r)))) url net
                (snd (_update_history [p] r)) Hu0) as Hreq.
  rewrite Hposted in Hreq. cbv zeta in Hreq.
  destruct (chat_one_raised p net r _ _ Hreq) as (H1 & H2 & H3 & _ & H5 & H6).
  rewrite H1, H2, H3, H5, H6.
  cbn [env on_env wire logged transmit tick]. rewrite Henv0.
  repeat split; reflexivity.
Qed.

Lemma chat_post_raises_witness :
  fst (chat [Examples.hello] Examples.unreachable Examples.started) = Ok "".
Proof.
  apply (chat_post_raises Examples.hello Examples.unreachable Examples.started
           (_api_route +:+ "/abc") (ConnectionError "connection reset")).
  - vm_compute. reflexivity.
  - reflexivity.
Defined.

(** X8. When the streamed body holds an [error] record without text,
    after any lines that parse, [chat] returns the empty string, not the
    text gathered before the record; the exception of the record is logged
    as a failed post and no assistant turn is added. *)
Theorem chat_error_record
    (p : Prompt) (net : Post) (r : Run) (url : string) (resp : Response)
    (before after : list StreamLine) (o : gmap string string) (err : string) :
  _chat_url (obj r) = Some url ->
  posted net = Ok resp ->
  iter_lines resp = before ++ Obj o :: after ->
  Forall passes before ->
  o !! "generated_text" = None ->
  o !! "error" = Some err ->
  let out := chat [p] net r in
  fst out = Ok ""
  /\ _raw_history (obj (snd out)) = _raw_history (obj r) ++ [p]
  /\ _split_history (obj (snd out))
     = _split_history (obj r) ++ split space (format_prompt p)
  /\ last (logged (env (snd out)))
     = Some {| level := Error; sender := LOG_NAME;
               content := MessageTemplates.post_failed;
               error := Some (Exception err); long_content := false |}.
Proof.
  intros Hu Hposted Hlines Hb Hg He out. subst out.
  destruct (update_history_throttle_attrs [p] r) as (_ & _ & Hu0 & _).
  rewrite Hu in Hu0.
  pose proof (request_response_sent
                (_build_prompt (obj (snd (_update_history [p] r)))) url net
                (snd (_update_history [p] r)) Hu0) as Hreq.
  rewrite Hposted in Hreq. cbv zeta in Hreq.
  match type of Hreq with
  | _ = _parse_response resp ?x =>
      pose proof (parse_response_error before after o err
                    (status_code resp) x Hb Hg He) as Hparse
  end.
  rewrite <- Hlines in Hparse.
  replace {| status_code := status_code resp; iter_lines := iter_lines resp |}
    with resp in Hparse by (by destruct resp).
  destruct (_parse_response resp _) as [res r1]. simpl in Hparse. subst res.
  destruct (chat_one_raised p net r _ _ Hreq) as (H1 & H2 & H3 & _ & _ & H6).
  rewrite H1, H2, H3, H6, last_snoc. repeat split; reflexivity.
Qed.

Lemma chat_error_record_witness :
  fst (chat [Examples.hello]
         {| posted := Ok {| status_code := 200;
                            iter_lines := [Obj {[ "generated_text" := "Well " ]};
                                           Obj {[ "error" := "overloaded" ]}] |};
            rtt := 200000; oversleep := 0 |}
         Examples.started)
  = Ok "".
Proof.
  apply (chat_error_record Examples.hello
           {| posted := Ok {| status_code := 200;
                              iter_lines := [Obj {[ "generated_text" := "Well " ]};
                                             Obj {[ "error" := "overloaded" ]}] |};
              rtt := 200000; oversleep := 0 |}
           Examples.started (_api_route +:+ "/abc")
           {| status_code := 200;
              iter_lines := [Obj {[ "generated_text" := "Well " ]};
                             Obj {[ "error" := "overloaded" ]}] |}
           [Obj {[ "generated_text" := "Well " ]}] []
           {[ "error" := "overloaded" ]} "overloaded").
  - vm_compute. reflexivity.
  - reflexivity.
  - reflexivity.
  - repeat constructor. exists {[ "generated_text" := "Well " ]}.
    split; [reflexivity |]. left. vm_compute. by eexists.
  - vm_compute. reflexivity.
  - vm_compute. reflexivity.
Defined.

End ExchangeFacts.

(** ** huggingchat.py: calls in a row *)

Section ThrottleFacts.
Import HuggingChat Conversation.

Lemma parse_response_wire (resp : Response) (r : Run) :
  wire (env (snd (_parse_response resp r))) = wire (env r)
  /\ clock (env (snd (_parse_response resp r))) = clock (env r).
Proof.
  unfold _parse_response, bind, _log, modify, ret.
  destruct (decide (status_code resp = 200%Z)); simpl.
  - destruct (parse_lines _ _ _) as [[]] eqn:Hp;
      apply (f_equal snd) in Hp; rewrite parse_lines_state in Hp; simpl in Hp;
      by subst.
  - destruct (parse_lines _ _ _) as [[]] eqn:Hp;
      apply (f_equal snd) in Hp; rewrite parse_lines_state in Hp; simpl in Hp;
      by subst.
Qed.

Lemma request_response_wire (prompt_content url : string) (net : Post) (r : Run) :
  _chat_url (obj r) = Some url ->
  wire (env (snd (_request_response prompt_content net r)))
  = wire (env r) ++ [(clock (env r), Exchange url prompt_content)].
Proof.
  intros Hu. rewrite (request_response_sent _ url net r Hu). cbv zeta.
  destruct (posted net) as [resp|e]; [| reflexivity].
  destruct (parse_response_wire resp
              (on_env (tick (Z.of_N (rtt net)))
                 (on_env (transmit (Exchange url prompt_content)) r))) as [Hw _].
  by rewrite Hw.
Qed.

(** One [chat([p])] on a session with a conversation: one request leaves,
    at the time of the call, whatever comes back; the call ends throttled. *)
Lemma chat_one_step (p : Prompt) (net : Post) (r : Run) (url : string) :
  _chat_url (obj r) = Some url ->
  let r' := snd (chat [p] net r) in
  wire (env r')
  = wire (env r)
    ++ [(clock (env r),
         Exchange url (_build_prompt (obj (snd (_update_history [p] r)))))]
  /\ _chat_url (obj r') = Some url
  /\ _throttle_time (obj r') = _throttle_time (obj r)
  /\ _time_of_last_prompt (obj r') = clock (env r')
  /\ (_time_of_last_prompt (obj r) + _throttle_time (obj r)
      <= _time_of_last_prompt (obj r'))%Z.
Proof.
  intros Hu r'. subst r'. rewrite chat_one_unfold. cbv zeta.
  destruct (update_history_throttle_attrs [p] r) as (Htt0 & Hlast0 & Hu0 & Henv0).
  rewrite Hu in Hu0.
  set (r0 := snd (_update_history [p] r)) in *.
  pose proof (request_response_obj (_build_prompt (obj r0)) net r0) as Hobj.
  pose proof (request_response_wire (_build_prompt (obj r0)) url net r0 Hu0) as Hwire.
  rewrite Henv0 in Hwire.
  assert (Hstep : forall (r3 : Run),
            _throttle_time (obj r3) = _throttle_time (obj r0) ->
            _time_of_last_prompt (obj r3) = _time_of_last_prompt (obj r0) ->
            _chat_url (obj r3) = _chat_url (obj r0) ->
            wire (env r3)
            = wire (env r) ++ [(clock (env r), Exchange url (_build_prompt (obj r0)))] ->
            let r4 := snd (_throttle (oversleep net) r3) in
            wire (env r4)
            = wire (env r) ++ [(clock (env r), Exchange url (_build_prompt (obj r0)))]
            /\ _chat_url (obj r4) = Some url
            /\ _throttle_time (obj r4) = _throttle_time (obj r)
            /\ _time_of_last_prompt (obj r4) = clock (env r4)
            /\ (_time_of_last_prompt (obj r) + _throttle_time (obj r)
                <= _time_of_last_prompt (obj r4))%Z).
  { intros r3 Htt3 Hl3 Hu3 Hw3 r4. subst r4.
    destruct (throttle_spec (oversleep net) r3) as (H1 & H2 & H3 & _).
    destruct (after_throttle (oversleep net) r3) as (_ & _ & _ & _ & Hwt).
    rewrite Hwt, Hw3, throttle_url, Hu3, Hu0, H3, Htt3, Htt0.
    rewrite Hl3, Htt3, Hlast0, Htt0 in H2.
    repeat split; [exact H1 | exact H2]. }
  destruct (_request_response (_build_prompt (obj r0)) net r0) as [[resp|e] r2];
    cbn [snd] in Hobj, Hwire; cbv beta iota; cbn [snd].
  - destruct (update_history_throttle_attrs
                [{| author := "assistant"; Assistant.content := resp |}] r2)
      as (Htt2 & Hl2 & Hu2 & Henv2).
    apply Hstep; rewrite ?Htt2, ?Hl2, ?Hu2, ?Henv2, ?Hobj; done.
  - apply Hstep; rewrite ?log_obj, ?Hobj; done.
Qed.

Lemma requests_apart_cons (d : Z) (x : Z * Request) (l : list (Z * Request)) :
  (forall y, l !! 0 = Some y -> (d <= fst y - fst x)%Z) ->
  Spec.requests_apart d l ->
  Spec.requests_apart d (x :: l).
Proof.
  intros Hhead Htail i t1 t2 q1 q2 H1 H2. destruct i as [|i].
  - simpl in H1, H2. injection H1 as ->. apply (Hhead _ H2).
  - simpl in H1, H2. by apply (Htail i t1 t2 q1 q2).
Qed.

Lemma paced_wire (calls : list (N * Prompt * Post)) (r : Run) (url : string) :
  _chat_url (obj r) = Some url ->
  clock (env r) = _time_of_last_prompt (obj r) ->
  exists new,
    wire (env (paced calls r)) = wire (env r) ++ new
    /\ length new = length calls
    /\ (forall i d p net t1 q1 t2 q2,
          calls !! i = Some (d, p, net) ->
          new !! i = Some (t1, q1) ->
          new !! S i = Some (t2, q2) ->
          (_throttle_time (obj r) - Z.of_N d <= t2 - t1)%Z)
    /\ (forall y, new !! 0 = Some y ->
          exists d p net, calls !! 0 = Some (d, p, net)
                          /\ fst y = (clock (env r) + Z.of_N d)%Z).
Proof.
  revert r. induction calls as [|[[d p] net] calls IH]; intros r Hu Hclock.
  - exists []. simpl. rewrite app_nil_r. repeat split; done.
  - change (paced ((d, p, net) :: calls) r)
      with (paced calls (snd (chat [p] net (idle d r)))).
    destruct (chat_one_step p net (idle d r) url Hu) as (Hw & Hu' & Htt & Hl & Hle).
    change (wire (env (idle d r))) with (wire (env r)) in Hw.
    change (clock (env (idle d r))) with (clock (env r) + Z.of_N d)%Z in Hw.
    change (_throttle_time (obj (idle d r))) with (_throttle_time (obj r)) in Htt, Hle.
    change (_time_of_last_prompt (obj (idle d r)))
      with (_time_of_last_prompt (obj r)) in Hle.
    destruct (IH (snd (chat [p] net (idle d r))) Hu' (eq_sym Hl))
      as (new & Hwn & Hlen & Hgap & Hhead).
    eexists (_ :: new). rewrite Hwn, Hw, <- app_assoc. simpl.
    split; [reflexivity |]. split; [by rewrite Hlen |]. split.
    + intros i d0 p0 net0 t1 q1 t2 q2 Hc H1 H2. destruct i as [|i]; simpl in Hc, H1, H2.
      * injection Hc as -> -> ->. injection H1 as <- _.
        destruct (Hhead _ H2) as (d' & _ & _ & _ & Hy). simpl in Hy.
        pose proof (N2Z.is_nonneg d'). lia.
      * rewrite <- Htt. by apply (Hgap i d0 p0 net0 t1 q1 t2 q2).
    + intros y [= <-]. by exists d, p, net.
Qed.

(** X9. One-turn chats in a row on a session with a conversation, from a
    state whose clock stands at the timestamp (as a session start or a
    [chat] leaves it), with any time passing before each post: each call
    puts one request on the wire, and a request follows the one before by
    at least [_throttle_time] less the time that the one before left after
    the timestamp it found. The throttle measures from the timestamp, set
    at the end of a call, not from the post: the later a post leaves after
    it, the closer the next post can follow. *)
Theorem next_request_waits_for_the_deficit
    (calls : list (N * Prompt * Post)) (r : Run) (url : string) :
  _chat_url (obj r) = Some url ->
  clock (env r) = _time_of_last_prompt (obj r) ->
  let new := sent_since (length (wire (env r))) (paced calls r) in
  length new = length calls
  /\ forall i d p net t1 q1 t2 q2,
       calls !! i = Some (d, p, net) ->
       new !! i = Some (t1, q1) ->
       new !! S i = Some (t2, q2) ->
       (_throttle_time (obj r) - Z.of_N d <= t2 - t1)%Z.
Proof.
  intros Hu Hclock.
  destruct (paced_wire calls r url Hu Hclock) as (new & Hw & Hlen & Hgap & _).
  unfold sent_since. rewrite Hw, drop_app_length. by split.
Qed.

Lemma next_request_waits_for_the_deficit_witness :
  sent_since 2
    (paced [(450000%N, Examples.hello, Examples.unreachable);
            (0%N, Examples.again, Examples.unreachable)] Examples.started)
  = [(1000000%Z,
      Exchange (_api_route +:+ "/abc")
        (_build_prompt
           (obj (snd (_update_history [Examples.hello] Examples.started)))));
     (1200000%Z,
      Exchange (_api_route +:+ "/abc")
        (_build_prompt
           (obj (updates [Examples.hello; Examples.again] Examples.started))))]
  /\ (500000 - 450000 <= 1200000 - 1000000)%Z.
Proof.
  assert (Hu : _chat_url (obj Examples.started) = Some (_api_route +:+ "/abc"))
    by (vm_compute; reflexivity).
  assert (Hc : clock (env Examples.started)
               = _time_of_last_prompt (obj Examples.started))
    by (vm_compute; reflexivity).
  assert (Hw : sent_since 2
    (paced [(450000%N, Examples.hello, Examples.unreachable);
            (0%N, Examples.again, Examples.unreachable)] Examples.started)
  = [(1000000%Z,
      Exchange (_api_route +:+ "/abc")
        (_build_prompt
           (obj (snd (_update_history [Examples.hello] Examples.started)))));
     (1200000%Z,
      Exchange (_api_route +:+ "/abc")
        (_build_prompt
           (obj (updates [Examples.hello; Examples.again] Examples.started))))])
    by (vm_compute; reflexivity).
  split; [exact Hw |].
  destruct (next_request_waits_for_the_deficit
              [(450000%N, Examples.hello, Examples.unreachable);
               (0%N, Examples.again, Examples.unreachable)]
              Examples.started (_api_route +:+ "/abc") Hu Hc) as [_ Hgap].
  change (length (wire (env Examples.started))) with 2 in Hgap.
  rewrite Hw in Hgap.
  exact (Hgap 0 450000%N Examples.hello Examples.unreachable
           _ _ _ _ eq_refl eq_refl eq_refl).
Defined.

End ThrottleFacts.

(** ** huggingchat.py: what a session start sends *)

Section StartFacts.
Import HuggingChat Conversation.



Variable Preprompts_default : string.




End StartFacts.

Section StartWitnesses.
Import HuggingChat.



End StartWitnesses.

(** ** logger.py: registries built by subscriptions *)

Section RegistryFacts.
Import LoggerHub Subscriptions.

Lemma subscribe_keeps (cb cb' : Callback) (lvl l : LogLevel) (lg : Logger) :
  cb' ∈ subscribers lg l -> cb' ∈ subscribers (subscribe cb lvl lg) l.
Proof.
  intros Hin. rewrite subscribe_subscribers.
  destruct (decide (l = lvl)); [| done]. apply elem_of_union. by left.
Qed.

Lemma elem_of_subscribe (cb cb' : Callback) (lvl l : LogLevel) (lg : Logger) :
  cb' ∈ subscribers (subscribe cb lvl lg) l
  <-> cb' ∈ subscribers lg l \/ (cb' = cb /\ lvl = l).
Proof.
  rewrite subscribe_subscribers. destruct (decide (l = lvl)) as [->|Hne].
  - rewrite elem_of_union, elem_of_singleton. intuition congruence.
  - intuition congruence.
Qed.

Lemma subscribed_snoc (subs : list (Callback * LogLevel)) (cb : Callback) (lvl : LogLevel) :
  subscribed (subs ++ [(cb, lvl)]) = subscribe cb lvl (subscribed subs).
Proof. unfold subscribed. by rewrite foldl_snoc. Qed.

Lemma console_logger_subscribed
    (subs : list (Callback * LogLevel)) (message : LogMessage) :
  console_logger ∈ audience message (subscribed subs).
Proof.
  unfold audience. apply elem_of_union. right.
  induction subs as [|[cb lvl] subs IH] using rev_ind.
  - simpl. apply elem_of_union. right. by apply elem_of_singleton.
  - rewrite subscribed_snoc. by apply subscribe_keeps.
Qed.

(** X12. Whatever is subscribed after the logger was built, in any
    number and order, the console logger registered by [__init__] is among
    the callbacks [log] iterates over, for every message of any level. It
    is awaited exactly once when none of the subscribers reached before it
    raises, and not at all when one does; so exactly once whenever no other
    subscriber raises. *)
Theorem console_logger_is_always_subscribed
    (raises : Awaits) (e : option PyExc)
    (subs : list (Callback * LogLevel)) (message : LogMessage) :
  console_logger ∈ audience message (subscribed subs)
  /\ calls raises console_logger message (subscribed subs)
     = (if decide (Forall (fun c => raises c = None)
                     (earlier console_logger
                        (elements (audience message (subscribed subs)))))
        then 1 else 0)
  /\ calls (only console_logger e) console_logger message (subscribed subs) = 1.
Proof.
  pose proof (console_logger_subscribed subs message) as Hin.
  split; [exact Hin |]. split.
  - rewrite calls_spec.
    destruct (decide (console_logger ∈ _ /\ _)) as [[_ Hall]|Hn],
      (decide (Forall _ _)) as [Hall'|Hall']; try done; exfalso.
    by apply Hn.
  - rewrite calls_only. by apply decide_True.
Qed.

(** X13. A subscription of [cb] at [lvl] adds [cb], and nothing else, to
    the set that [log] iterates over for messages of level [lvl], or for
    all messages when [lvl] is [All], and leaves the set of every other
    message as it was. When no subscriber raises, the calls of [log] change
    accordingly: [cb] is awaited once for those messages, and every other
    count is what it was. *)
Theorem subscribe_changes_only_its_level
    (cb cb' : Callback) (lvl : LogLevel) (lg : Logger) (message : LogMessage) :
  audience message (subscribe cb lvl lg)
  = (if decide (lvl = level message \/ lvl = All)
     then audience message lg ∪ {[cb]} else audience message lg)
  /\ calls all_return cb' message (subscribe cb lvl lg)
     = (if decide (cb' = cb /\ (lvl = level message \/ lvl = All)) then 1
        else calls all_return cb' message lg).
Proof.
  split; [apply audience_subscribe |].
  assert (Hq : forall lg0, calls all_return cb' message lg0
                           = if decide (cb' ∈ audience message lg0) then 1 else 0).
  { intros lg0. rewrite calls_spec.
    destruct (decide (cb' ∈ audience message lg0 /\ _)) as [[Hin _]|Hn],
      (decide (cb' ∈ audience message lg0)) as [Hin'|Hin']; try done; exfalso.
    apply Hn. split; [done |]. by apply Forall_forall. }
  rewrite !Hq.
  assert (Hiff : cb' ∈ audience message (subscribe cb lvl lg)
                 <-> cb' ∈ audience message lg
                     \/ (cb' = cb /\ (lvl = level message \/ lvl = All))).
  { unfold audience. rewrite !elem_of_union, !elem_of_subscribe. tauto. }
  destruct (decide (cb' = cb /\ (lvl = level message \/ lvl = All))) as [Hy|Hn].
  - apply decide_True, Hiff. by right.
  - destruct (decide (cb' ∈ audience message (subscribe cb lvl lg))) as [Hin|Hin],
      (decide (cb' ∈ audience message lg)) as [Hin'|Hin']; try done; exfalso.
    + apply Hiff in Hin as [Hin|Hin]; [by apply Hin' | by apply Hn].
    + apply Hin, Hiff. by left.
Qed.

(** X14. The order of two subscriptions does not matter, and a
    subscription never takes a callback out of any level. *)
Theorem subscriptions_commute_and_only_add
    (cb1 cb2 : Callback) (l1 l2 l : LogLevel) (lg : Logger) :
  subscribe cb1 l1 (subscribe cb2 l2 lg) = subscribe cb2 l2 (subscribe cb1 l1 lg)
  /\ subscribers lg l ⊆ subscribers (subscribe cb1 l1 lg) l.
Proof.
  split.
  - apply Logger_eq. intros l'. rewrite !subscribe_subscribers.
    destruct (decide (l' = l1)), (decide (l' = l2)); try done.
    rewrite <- !(assoc_L (∪)). f_equal. apply (comm_L (∪)).
  - intros x Hx. by apply subscribe_keeps.
Qed.

End RegistryFacts.

(** ** adventurer.py: what a cycle broadcasts and logs *)

Section BroadcastFacts.
Import Adventurer Broadcast.

Lemma errors_app (l1 l2 : list LogMessage) : errors (l1 ++ l2) = errors l1 ++ errors l2.
Proof. apply filter_app. Qed.

Lemma errors_q_add (arrivals : list Prompt) : errors (map Spec.q_add_message arrivals) = [].
Proof.
  induction arrivals as [|p arrivals IH]; [reflexivity |].
  simpl. unfold errors in *. rewrite filter_cons_False by discriminate.
  exact IH.
Qed.

Lemma errors_other (m : LogMessage) : level m <> Error -> errors [m] = [].
Proof. intros Hm. unfold errors. by rewrite filter_cons_False. Qed.

Lemma errors_arrived (arrivals : list Prompt) (a : Agent) :
  errors (logged (Spec.arrived arrivals a)) = errors (logged a).
Proof. simpl. by rewrite errors_app, errors_q_add, app_nil_r. Qed.

Lemma errors_debug (content : string) (long : bool) (a : Agent) :
  errors (logged (emit {| level := Debug; sender := LOG_NAME; content := content;
                          error := None; long_content := long |} a))
  = errors (logged a).
Proof.
  simpl. rewrite errors_app. unfold errors at 2.
  rewrite filter_cons_False by discriminate. by rewrite filter_nil, app_nil_r.
Qed.

Lemma errors_chat_error (e : PyExc) (a : Agent) :
  errors (logged (emit (Spec.chat_error_message e) a))
  = errors (logged a) ++ [Spec.chat_error_message e].
Proof.
  simpl. rewrite errors_app. unfold errors at 2.
  rewrite filter_cons_True by done. by rewrite filter_nil.
Qed.

Lemma for_each_cb_self (c : Cycle) (cbs : list Handler) (resp : string) (a : Agent) :
  for_each_cb c (SelfLog :: cbs) resp a
  = for_each_cb c cbs resp
      (emit {| level := Debug; sender := LOG_NAME; content := resp;
               error := None; long_content := false |} a).
Proof. reflexivity. Qed.

Lemma for_each_cb_registered
    (c : Cycle) (id : nat) (cbs : list Handler) (resp : string) (a : Agent) :
  for_each_cb c (Registered id :: cbs) resp a
  = match handler_raises c id with
    | Some e => (Raise e, note_broadcast id resp a)
    | None => for_each_cb c cbs resp (note_broadcast id resp a)
    end.
Proof.
  cbn [for_each_cb call_handler]. unfold bind, modify, ret, raise.
  by destruct (handler_raises c id).
Qed.

Lemma for_each_cb_effects (c : Cycle) (cbs : list Handler) (resp : string) (a : Agent) :
  broadcasts (snd (for_each_cb c cbs resp a))
  = broadcasts a ++ map (fun id => (id, resp)) (reached c cbs)
  /\ errors (logged (snd (for_each_cb c cbs resp a))) = errors (logged a).
Proof.
  revert a. induction cbs as [|[|id] cbs IH]; intros a.
  - simpl. by rewrite app_nil_r.
  - rewrite for_each_cb_self. cbn [reached].
    destruct (IH (emit {| level := Debug; sender := LOG_NAME; content := resp;
                          error := None; long_content := false |} a)) as [H1 H2].
    rewrite H1, H2, errors_debug. done.
  - rewrite for_each_cb_registered. cbn [reached].
    destruct (handler_raises c id) as [e|].
    + done.
    + destruct (IH (note_broadcast id resp a)) as [H1 H2].
      rewrite H1, H2. simpl. by rewrite <- app_assoc.
Qed.

(** One cycle: what it adds to the broadcasts and to the errors of the log. *)
Lemma loop_effects (c : Cycle) (a : Agent) :
  let queue := _conversation_queue a ++ during_sleep c in
  let a' := snd (_conversation_loop c a) in
  broadcasts a'
  = broadcasts a
    ++ match queue, reply c with
       | _ :: _, Ok resp => map (fun id => (id, resp)) (reached c (_chat_cbs a))
       | _, _ => []
       end
  /\ errors (logged a')
     = errors (logged a)
       ++ match queue, reply c with
          | [], _ => []
          | _ :: _, Raise e => [Spec.chat_error_message e]
          | _ :: _, Ok _ =>
              match Spec.first_raise c (_chat_cbs a) with
              | Some e => [Spec.chat_error_message e]
              | None => []
              end
          end.
Proof.
  intros queue a'. subst a' queue. rewrite loop_unfold. cbv zeta.
  change (_conversation_queue (Spec.arrived (during_sleep c) a))
    with (_conversation_queue a ++ during_sleep c).
  destruct (_conversation_queue a ++ during_sleep c) as [|p rest].
  - simpl. rewrite !app_nil_r. split; [reflexivity |].
    by rewrite errors_app, errors_q_add, app_nil_r.
  - destruct (reply c) as [resp|e] eqn:Hr.
    + rewrite (send_prompts_ok _ _ _ _ _ Hr).
      match goal with
      | |- context [for_each_cb c ?cbs resp ?x] =>
          destruct (for_each_cb_spec c cbs resp x) as [Hres _];
          destruct (for_each_cb_effects c cbs resp x) as [Hb He];
          destruct (for_each_cb c cbs resp x) as [res a'']
      end.
      cbn [fst snd] in Hres, Hb, He.
      cbn [_chat_cbs note_snapshot Spec.arrived] in Hres, Hb.
      cbn [logged Spec.arrived set_queue emit note_exchange note_snapshot] in He.
      rewrite !errors_app, !errors_q_add in He.
      rewrite !errors_other in He by discriminate. rewrite !app_nil_r in He.
      cbn [broadcasts Spec.arrived set_queue emit note_exchange note_snapshot] in Hb.
      destruct (Spec.first_raise c (_chat_cbs a)) as [e|]; subst res; cbn [snd].
      * split; [exact Hb |].
        cbn [logged set_pending Spec.arrived emit].
        rewrite !errors_app, errors_q_add, app_nil_r, He.
        unfold errors at 2. by rewrite filter_cons_True.
      * split; [exact Hb |]. cbn [logged set_pending].
        by rewrite He, app_nil_r.
    + rewrite (send_prompts_raise _ _ _ _ _ Hr).
      cbn [snd broadcasts logged set_pending Spec.arrived emit note_exchange
           note_snapshot].
      rewrite app_nil_r. split; [reflexivity |].
      rewrite !errors_app, !errors_q_add, !app_nil_r.
      unfold errors at 2. by rewrite filter_cons_True.
Qed.

(** X15. A cycle broadcasts only a reply: when the copy of the queue was
    not empty and the assistant replied, the registered handlers are called
    with that reply in registration order, each once, up to the first one
    that raises, and those after it are not called; when the copy was empty
    or the assistant raised, no handler is called. *)
Theorem reply_reaches_handlers_in_order (c : Cycle) (a : Agent) :
  let queue := _conversation_queue a ++ during_sleep c in
  let a' := snd (_conversation_loop c a) in
  broadcasts a'
  = broadcasts a
    ++ match queue, reply c with
       | _ :: _, Ok resp => map (fun id => (id, resp)) (reached c (_chat_cbs a))
       | _, _ => []
       end.
Proof. intros queue a'. by destruct (loop_effects c a) as [Hb _]. Qed.

(** X16. A cycle adds one entry of level [Error] to the log when the
    assistant raised, or when the assistant replied and a handler raised,
    with that exception, and none otherwise: the [except] suite of the loop
    also catches what a handler raises. *)
Theorem cycle_logs_one_error_per_failure (c : Cycle) (a : Agent) :
  let queue := _conversation_queue a ++ during_sleep c in
  let a' := snd (_conversation_loop c a) in
  errors (logged a')
  = errors (logged a)
    ++ match queue, reply c with
       | [], _ => []
       | _ :: _, Raise e => [Spec.chat_error_message e]
       | _ :: _, Ok _ =>
           match Spec.first_raise c (_chat_cbs a) with
           | Some e => [Spec.chat_error_message e]
           | None => []
           end
       end.
Proof. intros queue a'. by destruct (loop_effects c a) as [_ He]. Qed.

(** X17. A cycle that finds the queue empty when it wakes does nothing
    but create the next task: the assistant is not called, nothing is
    logged or broadcast, and the queue is still empty. *)
Theorem empty_cycle_is_silent (c : Cycle) (a : Agent) :
  _conversation_queue a ++ during_sleep c = [] ->
  let a' := snd (_conversation_loop c a) in
  exchanges a' = exchanges a
  /\ logged a' = logged a
  /\ broadcasts a' = broadcasts a
  /\ _conversation_queue a' = []
  /\ pending a' = S (pending a).
Proof.
  intros Hq a'. subst a'.
  destruct (app_eq_nil _ _ Hq) as [Hqa Hsleep].
  rewrite loop_unfold. cbv zeta.
  change (_conversation_queue (Spec.arrived (during_sleep c) a))
    with (_conversation_queue a ++ during_sleep c).
  rewrite Hq. simpl. rewrite Hsleep, Hqa. simpl. by rewrite app_nil_r.
Qed.

Lemma empty_cycle_is_silent_witness :
  logged (snd (_conversation_loop Examples.quiet Adventurer.__init__)) = [].
Proof.
  apply (empty_cycle_is_silent Examples.quiet Adventurer.__init__).
  reflexivity.
Defined.

End BroadcastFacts.

(** ** main.py: the loop over the HuggingChat adapter *)

Section DeploymentFacts.
Import HuggingChat Conversation Deployment.

Lemma request_response_env (prompt_content : string) (net : Post) (r : Run) :
  (clock (env r) <= clock (env (snd (_request_response prompt_content net r))))%Z
  /\ (wire (env (snd (_request_response prompt_content net r))) = wire (env r)
      \/ exists q,
           wire (env (snd (_request_response prompt_content net r)))
           = wire (env r) ++ [(clock (env r), q)]).
Proof.
  destruct (_chat_url (obj r)) as [url|] eqn:Hu.
  - rewrite (request_response_sent _ url net r Hu). cbv zeta.
    destruct (posted net) as [resp|e].
    + destruct (parse_response_wire resp
                  (on_env (tick (Z.of_N (rtt net)))
                     (on_env (transmit (Exchange url prompt_content)) r)))
        as [Hw Hc].
      rewrite Hw, Hc. simpl. split; [lia |]. right. by eexists.
    + simpl. split; [lia |]. right. by eexists.
  - rewrite (request_response_no_url _ net r Hu). simpl. split; [lia | by left].
Qed.

Lemma chat_env (prompts : list Prompt) (net : Post) (r : Run) :
  (clock (env r) <= clock (env (snd (chat prompts net r))))%Z
  /\ (wire (env (snd (chat prompts net r))) = wire (env r)
      \/ exists q,
           wire (env (snd (chat prompts net r)))
           = wire (env r) ++ [(clock (env r), q)]).
Proof.
  rewrite chat_unfold.
  destruct (update_history_throttle_attrs prompts r) as (_ & _ & _ & Henv0).
  destruct (_update_history prompts r) as [[[]|e] r0]; simpl in Henv0.
  - destruct (request_response_env (_build_prompt (obj r0)) net r0) as [Hc Hw].
    rewrite Henv0 in Hc, Hw.
    destruct (_request_response (_build_prompt (obj r0)) net r0) as [[resp|e] r1];
      cbn [snd] in Hc, Hw; cbv beta iota; cbn [snd].
    + destruct (update_history_throttle_attrs
                  [{| author := "assistant"; Assistant.content := resp |}] r1)
        as (_ & _ & _ & Henv1).
      match goal with
      | |- context [_throttle ?o ?x] =>
          destruct (throttle_spec o x) as (_ & _ & _ & Hmono);
          destruct (after_throttle o x) as (_ & _ & _ & _ & Hwt)
      end.
      rewrite Hwt, Henv1. rewrite Henv1 in Hmono. split; [lia | exact Hw].
    + match goal with
      | |- context [_throttle ?o ?x] =>
          destruct (throttle_spec o x) as (_ & _ & _ & Hmono);
          destruct (after_throttle o x) as (_ & _ & _ & _ & Hwt)
      end.
      rewrite Hwt. simpl in Hmono |- *. split; [lia | exact Hw].
  - simpl. rewrite Henv0. split; [lia | by left].
Qed.

Lemma with_reply_loop_queue (rep : result string) (c : Adventurer.Cycle) :
  Adventurer.during_sleep (with_reply rep c) = Adventurer.during_sleep c
  /\ Adventurer.during_exchange (with_reply rep c) = Adventurer.during_exchange c
  /\ Adventurer.during_broadcast (with_reply rep c) = Adventurer.during_broadcast c
  /\ Adventurer.during_error_log (with_reply rep c) = Adventurer.during_error_log c
  /\ Adventurer.reply (with_reply rep c) = rep.
Proof. repeat split; reflexivity. Qed.

Lemma with_reply_handlers (rep : result string) (c : Adventurer.Cycle)
    (cbs : list Adventurer.Handler) :
  Spec.first_raise (with_reply rep c) cbs = Spec.first_raise c cbs
  /\ Broadcast.reached (with_reply rep c) cbs = Broadcast.reached c cbs.
Proof.
  induction cbs as [|[|id] cbs [IH1 IH2]]; simpl; [done | done |].
  rewrite IH1, IH2. done.
Qed.

(** One cycle on a copy of two or more entries. *)
Lemma cycle_stuck (t : Tick) (s : System) :
  2 <= length (Adventurer._conversation_queue (agent s)
               ++ Adventurer.during_sleep (happenings t)) ->
  wire (env (session (cycle t s))) = wire (env (session s))
  /\ Adventurer.broadcasts (agent (cycle t s)) = Adventurer.broadcasts (agent s)
  /\ Adventurer._conversation_queue (agent (cycle t s))
     = (Adventurer._conversation_queue (agent s)
        ++ Adventurer.during_sleep (happenings t))
       ++ Adventurer.during_exchange (happenings t)
       ++ Adventurer.during_error_log (happenings t)
  /\ Spec.chat_error_message (TypeError "list.extend() takes exactly one argument")
     ∈ Adventurer.logged (agent (cycle t s)).
Proof.
  intros Hlen. unfold cycle.
  set (queue := Adventurer._conversation_queue (agent s)
                ++ Adventurer.during_sleep (happenings t)) in *.
  set (woken := on_env (tick (_loop_throttle_time + Z.of_N (overslept t)))
                  (session s)).
  assert (Hne : length queue <> 1) by lia.
  destruct (chat_arity queue (net t) woken Hne) as (Hres & Henv & _).
  set (c' := with_reply (fst (chat queue (net t) woken)) (happenings t)).
  destruct (loop_cycle c' (agent s)) as (_ & _ & _ & _ & Hcase).
  destruct (loop_effects c' (agent s)) as [Hb _].
  change (Adventurer._conversation_queue (agent s) ++ Adventurer.during_sleep c')
    with queue in Hcase, Hb.
  change (Adventurer.reply c') with (fst (chat queue (net t) woken)) in Hcase, Hb.
  rewrite Hres in Hcase, Hb.
  destruct queue as [|p rest] eqn:Hq; [simpl in Hlen; lia |].
  cbn [agent session]. rewrite Henv. rewrite app_nil_r in Hb.
  destruct Hcase as (_ & Hqueue & Hlog).
  split; [reflexivity |]. split; [exact Hb |]. split; [exact Hqueue | exact Hlog].
Qed.

Lemma cycles_cons (t : Tick) (ticks : list Tick) (s : System) :
  cycles (t :: ticks) s = cycles ticks (cycle t s).
Proof. reflexivity. Qed.

(** X18. Behind the loop the HuggingChat adapter takes one turn at a
    time. Once the queue holds two entries or more, no cycle ever sends a
    request, broadcasts a reply or clears the queue again, however many
    cycles run and whatever is submitted meanwhile: each cycle gets
    [TypeError] from [chat] and keeps the queue, which only grows. *)
Theorem two_queued_entries_block_the_loop (ticks : list Tick) (s : System) :
  2 <= length (Adventurer._conversation_queue (agent s)) ->
  wire (env (session (cycles ticks s))) = wire (env (session s))
  /\ Adventurer.broadcasts (agent (cycles ticks s)) = Adventurer.broadcasts (agent s)
  /\ Adventurer._conversation_queue (agent s)
     `prefix_of` Adventurer._conversation_queue (agent (cycles ticks s)).
Proof.
  revert s. induction ticks as [|t ticks IH]; intros s Hlen.
  - simpl. repeat split; done.
  - rewrite cycles_cons.
    assert (Hlen' : 2 <= length (Adventurer._conversation_queue (agent s)
                                 ++ Adventurer.during_sleep (happenings t)))
      by (rewrite length_app; lia).
    destruct (cycle_stuck t s Hlen') as (Hw & Hb & Hq & _).
    assert (Hlen'' : 2 <= length (Adventurer._conversation_queue (agent (cycle t s))))
      by (rewrite Hq, !length_app; rewrite length_app in Hlen'; lia).
    destruct (IH (cycle t s) Hlen'') as (IHw & IHb & IHq).
    rewrite IHw, IHb, Hw, Hb. split; [reflexivity |]. split; [reflexivity |].
    etrans; [| exact IHq]. rewrite Hq, <- app_assoc. by apply prefix_app_r.
Qed.

Lemma two_queued_entries_block_the_loop_witness :
  wire (env (session (cycles [Scenarios.answered_tick; Scenarios.answered_tick]
                        Scenarios.crowded)))
  = wire (env (session Scenarios.crowded)).
Proof.
  apply (two_queued_entries_block_the_loop
           [Scenarios.answered_tick; Scenarios.answered_tick] Scenarios.crowded).
  simpl. lia.
Defined.

Lemma chat_one_returns (p : Prompt) (net : Post) (r : Run) :
  exists resp, fst (chat [p] net r) = Ok resp.
Proof.
  rewrite chat_one_unfold. cbv zeta.
  destruct (_request_response _ net _) as [[resp|e] r1]; by eexists.
Qed.

(** One cycle on a copy of one entry. *)
Lemma cycle_single (t : Tick) (s : System) (p : Prompt) (resp : string) :
  Adventurer._conversation_queue (agent s)
  ++ Adventurer.during_sleep (happenings t) = [p] ->
  let woken := on_env (tick (_loop_throttle_time + Z.of_N (overslept t)))
                 (session s) in
  fst (chat [p] (net t) woken) = Ok resp ->
  session (cycle t s) = snd (chat [p] (net t) woken)
  /\ Adventurer.exchanges (agent (cycle t s))
     = Adventurer.exchanges (agent s) ++ [[p]]
  /\ Adventurer.broadcasts (agent (cycle t s))
     = Adventurer.broadcasts (agent s)
       ++ map (fun id => (id, resp))
            (Broadcast.reached (happenings t) (Adventurer._chat_cbs (agent s)))
  /\ Adventurer._conversation_queue (agent (cycle t s))
     = Adventurer.during_broadcast (happenings t)
       ++ match Spec.first_raise (happenings t) (Adventurer._chat_cbs (agent s)) with
          | None => []
          | Some _ => Adventurer.during_error_log (happenings t)
          end.
Proof.
  intros Hq woken Hres. unfold cycle. fold woken. rewrite Hq.
  set (c' := with_reply (fst (chat [p] (net t) woken)) (happenings t)).
  destruct (loop_cycle c' (agent s)) as (_ & _ & _ & _ & Hcase).
  destruct (loop_effects c' (agent s)) as [Hb _].
  change (Adventurer._conversation_queue (agent s) ++ Adventurer.during_sleep c')
    with (Adventurer._conversation_queue (agent s)
          ++ Adventurer.during_sleep (happenings t)) in Hcase, Hb.
  change (Adventurer.reply c') with (fst (chat [p] (net t) woken)) in Hcase, Hb.
  rewrite Hq, Hres in Hcase, Hb. destruct Hcase as [Hex Hqueue].
  destruct (with_reply_handlers (fst (chat [p] (net t) woken)) (happenings t)
              (Adventurer._chat_cbs (agent s))) as [Hfirst Hreached].
  fold c' in Hfirst, Hreached. rewrite Hreached in Hb. rewrite Hfirst in Hqueue.
  cbn [agent session]. split; [reflexivity |]. split; [exact Hex |].
  split; [exact Hb |].
  change (Adventurer.during_broadcast c')
    with (Adventurer.during_broadcast (happenings t)) in Hqueue.
  change (Adventurer.during_error_log c')
    with (Adventurer.during_error_log (happenings t)) in Hqueue.
  destruct (Spec.first_raise (happenings t) (Adventurer._chat_cbs (agent s))).
  - by destruct Hqueue as [-> _].
  - by rewrite Hqueue, app_nil_r.
Qed.

(** X19. When a cycle of the deployed loop copies a queue of exactly one
    entry, [chat] of the adapter returns a string and never raises, so the
    entry is handed over once, the queue is cleared and the returned string
    is broadcast to the handlers in order, whatever the backend did. *)
Theorem single_entry_is_sent_and_cleared (t : Tick) (s : System) (p : Prompt) :
  Adventurer._conversation_queue (agent s)
  ++ Adventurer.during_sleep (happenings t) = [p] ->
  exists resp,
    fst (chat [p] (net t)
           (on_env (tick (_loop_throttle_time + Z.of_N (overslept t))) (session s)))
    = Ok resp
    /\ Adventurer.exchanges (agent (cycle t s))
       = Adventurer.exchanges (agent s) ++ [[p]]
    /\ Adventurer.broadcasts (agent (cycle t s))
       = Adventurer.broadcasts (agent s)
         ++ map (fun id => (id, resp))
              (Broadcast.reached (happenings t) (Adventurer._chat_cbs (agent s)))
    /\ Adventurer._conversation_queue (agent (cycle t s))
       = Adventurer.during_broadcast (happenings t)
         ++ match Spec.first_raise (happenings t)
                    (Adventurer._chat_cbs (agent s)) with
            | None => []
            | Some _ => Adventurer.during_error_log (happenings t)
            end.
Proof.
  intros Hq.
  destruct (chat_one_returns p (net t)
              (on_env (tick (_loop_throttle_time + Z.of_N (overslept t)))
                 (session s))) as [resp Hres].
  exists resp. split; [exact Hres |].
  by destruct (cycle_single t s p resp Hq Hres) as (_ & H2 & H3 & H4).
Qed.

Lemma single_entry_is_sent_and_cleared_witness :
  exists resp,
    fst (chat [Examples.hello] (net Scenarios.answered_tick)
           (on_env (tick (_loop_throttle_time
                          + Z.of_N (overslept Scenarios.answered_tick)))
              (session Scenarios.single)))
    = Ok resp
    /\ Adventurer.exchanges (agent (cycle Scenarios.answered_tick Scenarios.single))
       = Adventurer.exchanges (agent Scenarios.single) ++ [[Examples.hello]].
Proof.
  destruct (single_entry_is_sent_and_cleared Scenarios.answered_tick
              Scenarios.single Examples.hello eq_refl)
    as (resp & H1 & H2 & _).
  exists resp. by split.
Defined.

(** X20. When the post of that one entry raises, the adapter logs the
    failure itself and returns the empty string, so for the loop the cycle
    succeeded: the entry is removed from the queue although it reached no
    backend, the empty string is broadcast, and the loop logs no error. *)
Theorem failed_single_entry_is_dropped
    (t : Tick) (s : System) (p : Prompt) (url : string) (e : PyExc) :
  Adventurer._conversation_queue (agent s)
  ++ Adventurer.during_sleep (happenings t) = [p] ->
  _chat_url (obj (session s)) = Some url ->
  posted (net t) = Raise e ->
  Adventurer.exchanges (agent (cycle t s))
  = Adventurer.exchanges (agent s) ++ [[p]]
  /\ Adventurer.broadcasts (agent (cycle t s))
     = Adventurer.broadcasts (agent s)
       ++ map (fun id => (id, ""))
            (Broadcast.reached (happenings t) (Adventurer._chat_cbs (agent s)))
  /\ Adventurer._conversation_queue (agent (cycle t s))
     = Adventurer.during_broadcast (happenings t)
       ++ match Spec.first_raise (happenings t)
                  (Adventurer._chat_cbs (agent s)) with
          | None => []
          | Some _ => Adventurer.during_error_log (happenings t)
          end
  /\ last (logged (env (session (cycle t s))))
     = Some {| level := Error; sender := LOG_NAME;
               content := MessageTemplates.post_failed;
               error := Some e; long_content := false |}.
Proof.
  intros Hq Hu Hposted.
  set (woken := on_env (tick (_loop_throttle_time + Z.of_N (overslept t)))
                  (session s)).
  destruct (update_history_throttle_attrs [p] woken) as (_ & _ & Hu0 & _).
  change (_chat_url (obj woken)) with (_chat_url (obj (session s))) in Hu0.
  rewrite Hu in Hu0.
  pose proof (request_response_sent
                (_build_prompt (obj (snd (_update_history [p] woken)))) url (net t)
                (snd (_update_history [p] woken)) Hu0) as Hreq.
  rewrite Hposted in Hreq. cbv zeta in Hreq.
  destruct (chat_one_raised p (net t) woken _ _ Hreq) as (Hres & _ & _ & _ & _ & Hlog).
  destruct (cycle_single t s p "" Hq Hres) as (Hs & H2 & H3 & H4).
  subst woken. rewrite Hs, Hlog, last_snoc. by repeat split.
Qed.

Lemma failed_single_entry_is_dropped_witness :
  Adventurer._conversation_queue (agent (cycle Scenarios.failed_tick Scenarios.single))
  = [].
Proof.
  apply (failed_single_entry_is_dropped Scenarios.failed_tick Scenarios.single
           Examples.hello (_api_route +:+ "/abc")
           (ConnectionError "connection reset")).
  - reflexivity.
  - vm_compute. reflexivity.
  - reflexivity.
Defined.

Lemma cycle_env (t : Tick) (s : System) :
  (clock (env (session s)) + _loop_throttle_time + Z.of_N (overslept t)
   <= clock (env (session (cycle t s))))%Z
  /\ (wire (env (session (cycle t s))) = wire (env (session s))
      \/ exists q,
           wire (env (session (cycle t s)))
           = wire (env (session s))
             ++ [((clock (env (session s)) + _loop_throttle_time
                   + Z.of_N (overslept t))%Z, q)]).
Proof.
  unfold cycle.
  destruct (Adventurer._conversation_queue (agent s)
            ++ Adventurer.during_sleep (happenings t)) as [|p rest].
  - simpl. split; [lia | by left].
  - cbn [session].
    destruct (chat_env (p :: rest) (net t)
                (on_env (tick (_loop_throttle_time + Z.of_N (overslept t)))
                   (session s))) as [Hc Hw].
    simpl in Hc. split; [lia |].
    destruct Hw as [Hw|[q Hw]]; [left | right; exists q]; rewrite Hw; simpl;
      [reflexivity |]. do 3 f_equal. lia.
Qed.

Lemma cycles_wire (ticks : list Tick) (s : System) :
  exists new,
    wire (env (session (cycles ticks s))) = wire (env (session s)) ++ new
    /\ Spec.requests_apart _loop_throttle_time new
    /\ (forall y, new !! 0 = Some y ->
         (clock (env (session s)) + _loop_throttle_time <= fst y)%Z).
Proof.
  revert s. induction ticks as [|t ticks IH]; intros s.
  - exists []. simpl. rewrite app_nil_r. repeat split; done.
  - rewrite cycles_cons. destruct (IH (cycle t s)) as (new & Hw & Hapart & Hhead).
    destruct (cycle_env t s) as [Hc [Hstep|[q Hstep]]];
      assert (H5 : (0 <= _loop_throttle_time)%Z) by (unfold _loop_throttle_time; lia).
    + exists new. rewrite Hw, Hstep. split; [reflexivity |]. split; [exact Hapart |].
      intros y Hy. specialize (Hhead y Hy). lia.
    + eexists (_ :: new). rewrite Hw, Hstep, <- app_assoc. simpl.
      split; [reflexivity |]. split.
      * apply requests_apart_cons; [| exact Hapart].
        intros y Hy. specialize (Hhead y Hy). simpl. lia.
      * intros y [= <-]. simpl. lia.
Qed.

Lemma requests_apart_weaken (d d' : Z) (l : list (Z * Request)) :
  (d' <= d)%Z -> Spec.requests_apart d l -> Spec.requests_apart d' l.
Proof.
  intros Hd H i t1 t2 q1 q2 H1 H2. specialize (H i t1 t2 q1 q2 H1 H2). lia.
Qed.

(** X21. Driven by the loop, the adapter is called once per cycle at
    most, after the sleep of the loop: any two consecutive requests that the
    cycles put on the wire are at least 5 s apart, hence more than the
    500 ms of the throttle, whatever is submitted, whatever the backend
    answers and however long the sleeps overshoot. *)
Theorem deployed_requests_are_five_seconds_apart (ticks : list Tick) (s : System) :
  Spec.requests_apart 5000000
    (sent_since (length (wire (env (session s)))) (session (cycles ticks s)))
  /\ Spec.requests_apart (milliseconds 500)
       (sent_since (length (wire (env (session s)))) (session (cycles ticks s))).
Proof.
  destruct (cycles_wire ticks s) as (new & Hw & Hapart & _).
  unfold sent_since. rewrite Hw, drop_app_length.
  split; [exact Hapart |].
  apply (requests_apart_weaken _loop_throttle_time); [| exact Hapart].
  unfold milliseconds, _loop_throttle_time. lia.
Qed.

End DeploymentFacts.

(** ** preprompt_loader.py *)

Section LoaderFacts.
Import PrepromptLoader.

Lemma elem_of_keys (name : string) (names : list string) :
  name ∈ keys names <-> name ∈ names.
Proof.
  induction names as [|n names IH]; simpl; [done |].
  rewrite !elem_of_cons, list_elem_of_filter, IH.
  destruct (decide (name = n)); intuition congruence.
Qed.

Lemma read_each_cons (fs : Files) (folder n : string) (names : list string)
    (preprompts : gmap string string) :
  read_each fs folder (n :: names) preprompts
  = match fs !! path_join folder (n +:+ ".txt") with
    | Some text => read_each fs folder names (<[n := text]> preprompts)
    | None => FileNotFoundError (path_join folder (n +:+ ".txt"))
    end.
Proof. reflexivity. Qed.

Lemma read_each_spec (fs : Files) (folder : string) (names : list string)
    (preprompts : gmap string string) :
  match read_each fs folder names preprompts with
  | Dict d =>
      forall name,
        (name ∈ names ->
         is_Some (d !! name)
         /\ d !! name = fs !! path_join folder (name +:+ ".txt"))
        /\ (name ∉ names -> d !! name = preprompts !! name)
  | FileNotFoundError path =>
      fs !! path = None
      /\ exists name, name ∈ names /\ path = path_join folder (name +:+ ".txt")
  end.
Proof.
  revert preprompts. induction names as [|n names IH]; intros preprompts.
  - cbn [read_each]. intros name. split; [| done].
    intros Hin. by apply elem_of_nil in Hin.
  - rewrite read_each_cons.
    destruct (fs !! path_join folder (n +:+ ".txt")) as [text|] eqn:Hn.
    + specialize (IH (<[n := text]> preprompts)).
      destruct (read_each fs folder names (<[n := text]> preprompts)) as [d|path].
      * intros name. destruct (IH name) as [IHin IHout].
        destruct (decide (name ∈ names)) as [Hin|Hin].
        -- split; [intros _; by apply IHin |].
           intros Hnot. exfalso. apply Hnot. by apply elem_of_cons; right.
        -- destruct (decide (name = n)) as [->|Hne].
           ++ split.
              ** intros _. rewrite (IHout Hin), lookup_insert_eq, Hn.
                 split; [by eexists | done].
              ** intros Hnot. exfalso. apply Hnot, list_elem_of_here.
           ++ split.
              ** intros [?|?]%elem_of_cons; done.
              ** intros _. by rewrite (IHout Hin), lookup_insert_ne.
      * destruct IH as (Hnone & name & Hin & Hpath). split; [exact Hnone |].
        exists name. split; [by apply elem_of_cons; right | exact Hpath].
    + split; [exact Hn |]. exists n. split; [apply list_elem_of_here | done].
Qed.

(** X22. [load_preprompts] returns a dict exactly when the file of every
    name exists: the dict then maps each name of the list to the text of
    its file, the folder joined with the name and ".txt", and holds no
    other key, also when a name is listed twice. Otherwise it raises
    [FileNotFoundError] for the file of a listed name that does not
    exist. *)
Theorem load_preprompts_reads_every_name
    (fs : Files) (folder : string) (preprompt_names : list string) :
  match load_preprompts fs folder preprompt_names with
  | Dict d =>
      forall name,
        (name ∈ preprompt_names ->
         is_Some (d !! name)
         /\ d !! name = fs !! path_join folder (name +:+ ".txt"))
        /\ (name ∉ preprompt_names -> d !! name = None)
  | FileNotFoundError path =>
      fs !! path = None
      /\ exists name,
           name ∈ preprompt_names /\ path = path_join folder (name +:+ ".txt")
  end.
Proof.
  unfold load_preprompts.
  pose proof (read_each_spec fs folder (keys preprompt_names)
                (list_to_map (map (fun name => (name, "")) preprompt_names)))
    as Hspec.
  destruct (read_each _ _ _ _) as [d|path].
  - intros name. destruct (Hspec name) as [Hin Hout]. split.
    + intros Hname. by apply Hin, elem_of_keys.
    + intros Hnot. rewrite Hout by (by rewrite elem_of_keys).
      apply not_elem_of_list_to_map_1.
      rewrite <- list_fmap_compose.
      replace (fst ∘ (fun name0 : string => (name0, ""))) with (@id string)
        by reflexivity.
      by rewrite list_fmap_id.
  - destruct Hspec as (Hnone & name & Hin & Hpath). split; [exact Hnone |].
    exists name. split; [by apply elem_of_keys | exact Hpath].
Qed.

End LoaderFacts.

(** ** huggingchat.py: what formatting keeps, what the window holds, how
       long a call takes *)

Section FormatMore.
Import HuggingChat Conversation.

Lemma length_append (s t : string) :
  String.length (s +:+ t) = String.length s + String.length t.
Proof.
  induction s as [|a s IH]; [reflexivity |].
  rewrite append_cons. simpl. by rewrite IH.
Qed.

Lemma append_cancel_r (s1 s2 t : string) : s1 +:+ t = s2 +:+ t -> s1 = s2.
Proof.
  revert s2. induction s1 as [|a s1 IH]; intros [|b s2] H.
  - reflexivity.
  - apply (f_equal String.length) in H.
    rewrite !length_append in H. simpl in H. lia.
  - apply (f_equal String.length) in H.
    rewrite !length_append in H. simpl in H. lia.
  - rewrite !append_cons in H. injection H as -> H. f_equal. by apply IH.
Qed.

Lemma append_cancel_l (t s1 s2 : string) : t +:+ s1 = t +:+ s2 -> s1 = s2.
Proof.
  induction t as [|a t IH]; [done |].
  rewrite !append_cons. intros H. injection H as H. by apply IH.
Qed.

(** X23. Formatting keeps the content and the author's class: two turns
    with the same formatted string have the same content, and both are the
    assistant's or neither is. Only the name of an author other than
    "assistant" is lost. *)
Theorem format_prompt_keeps_content_and_class (p q : Prompt) :
  format_prompt p = format_prompt q ->
  Assistant.content p = Assistant.content q
  /\ Spec.author_class (author p) = Spec.author_class (author q).
Proof.
  unfold format_prompt, Spec.author_class.
  destruct (decide (author p = "assistant")), (decide (author q = "assistant"));
    intros H.
  - apply append_cancel_l, append_cancel_r in H. by split.
  - unfold ASSISTANT_MESSAGE_TOKEN, USER_MESSAGE_TOKEN in H.
    rewrite !append_cons in H. discriminate.
  - unfold ASSISTANT_MESSAGE_TOKEN, USER_MESSAGE_TOKEN in H.
    rewrite !append_cons in H. discriminate.
  - apply append_cancel_l, append_cancel_r in H. by split.
Qed.

Lemma format_prompt_keeps_content_and_class_witness :
  Assistant.content Examples.hello
  = Assistant.content {| author := "alice"; Assistant.content := "hello" |}.
Proof.
  apply (format_prompt_keeps_content_and_class Examples.hello
           {| author := "alice"; Assistant.content := "hello" |}).
  reflexivity.
Defined.

Lemma update_history_words (P : string -> Prop) (prompts : list Prompt) (r : Run) :
  (forall s, Forall P (split space s)) ->
  Forall P (_split_history (obj r)) ->
  Forall P (_split_history (obj (snd (_update_history prompts r)))).
Proof.
  intros Hsplit Hold. destruct prompts as [|p [|q rest]].
  - destruct (update_history_none r) as [_ ->]. exact Hold.
  - destruct (update_history_one p r) as [_ ->].
    apply Forall_app. split; [exact Hold | apply Hsplit].
  - destruct (update_history_many p q rest r) as [_ ->]. exact Hold.
Qed.

(** X24. The window holds words: if no element of [_split_history] has a
    space in it before a [chat], none has after it, whatever the turns and
    whatever the backend did, so that joining the window with spaces and
    splitting at spaces gives the window back. *)
Theorem window_words_have_no_space (prompts : list Prompt) (net : Post) (r : Run) :
  Forall (fun w => has_space w = false) (_split_history (obj r)) ->
  Forall (fun w => has_space w = false)
    (_split_history (obj (snd (chat prompts net r)))).
Proof.
  intros Hold. rewrite chat_unfold.
  pose proof (update_history_words _ prompts r split_no_space Hold) as H0.
  destruct (_update_history prompts r) as [[[]|e] r0]; cbn [snd] in H0;
    [| exact H0].
  pose proof (request_response_obj (_build_prompt (obj r0)) net r0) as Hobj.
  destruct (_request_response (_build_prompt (obj r0)) net r0) as [[resp|e] r1];
    cbn [snd] in Hobj; cbv beta iota; cbn [snd];
    match goal with
    | |- context [_throttle ?o ?x] =>
        destruct (after_throttle o x) as (_ & _ & Hs & _)
    end; rewrite Hs.
  - apply update_history_words; [apply split_no_space | by rewrite Hobj].
  - by rewrite log_obj, Hobj.
Qed.

Lemma window_words_have_no_space_witness :
  Forall (fun w => has_space w = false)
    (_split_history
       (obj (snd (chat [Examples.hello] Examples.answered Examples.started)))).
Proof.
  apply (window_words_have_no_space [Examples.hello] Examples.answered
           Examples.started).
  vm_compute. constructor.
Defined.

Lemma request_response_clock (prompt_content : string) (net : Post) (r : Run) :
  (clock (env r) <= clock (env (snd (_request_response prompt_content net r))))%Z.
Proof.
  destruct (_chat_url (obj r)) as [url|] eqn:Hu.
  - rewrite (request_response_sent _ url net r Hu). cbv zeta.
    destruct (posted net) as [resp|e].
    + match goal with
      | |- context [_parse_response resp ?x] =>
          destruct (parse_response_wire resp x) as [_ Hc]
      end.
      rewrite Hc. simpl. lia.
    + simpl. lia.
  - rewrite (request_response_no_url _ net r Hu). simpl. lia.
Qed.

Lemma entering_finally_clock (prompts : list Prompt) (net : Post) (r : Run) :
  (clock (env r) <= clock (env (Conversation.entering_finally prompts net r)))%Z.
Proof.
  unfold Conversation.entering_finally.
  destruct (update_history_throttle_attrs prompts r) as (_ & _ & _ & Henv0).
  destruct (_update_history prompts r) as [[[]|e] r0]; cbn [snd] in Henv0;
    [| rewrite Henv0; lia].
  pose proof (request_response_clock (_build_prompt (obj r0)) net r0) as Hreq.
  rewrite Henv0 in Hreq.
  destruct (_request_response (_build_prompt (obj r0)) net r0) as [[resp|e] r1];
    cbn [snd] in Hreq.
  - destruct (update_history_throttle_attrs
                [{| author := "assistant"; Assistant.content := resp |}] r1)
      as (_ & _ & _ & Henv1).
    by rewrite Henv1.
  - exact Hreq.
Qed.

(** X25. The throttle never delays a call by more than the interval:
    provided the timestamp is not in the future when [chat] is called and
    the interval is not negative, the time between the start of the
    [finally] suite of a [chat] that returns and the end of the call is at
    most [_throttle_time] and what the sleep overshoots. *)
Theorem throttle_delay_is_bounded
    (prompts : list Prompt) (net : Post) (r : Run) (resp : string) :
  fst (chat prompts net r) = Ok resp ->
  (_time_of_last_prompt (obj r) <= clock (env r))%Z ->
  (0 <= _throttle_time (obj r))%Z ->
  let before := Conversation.entering_finally prompts net r in
  (clock (env before) <= clock (env (snd (chat prompts net r)))
   <= clock (env before) + _throttle_time (obj r) + Z.of_N (oversleep net))%Z.
Proof.
  intros Hok Hlast Htt.
  destruct (chat_entering_finally prompts net r resp Hok) as (Heq & Hlast' & Htt').
  cbv zeta. rewrite Heq.
  pose proof (throttle_clock (oversleep net)
                (Conversation.entering_finally prompts net r)) as Hclock.
  pose proof (entering_finally_clock prompts net r) as Hmono.
  rewrite Hlast', Htt' in Hclock. rewrite Hclock.
  pose proof (N2Z.is_nonneg (oversleep net)).
  destruct (_ <? _)%Z eqn:Hlt;
    [apply Z.ltb_lt in Hlt | apply Z.ltb_ge in Hlt]; lia.
Qed.

Lemma throttle_delay_is_bounded_witness :
  (clock (env (Conversation.entering_finally
                 [Examples.hello] Examples.unreachable Examples.started))
   <= clock (env (snd (chat [Examples.hello] Examples.unreachable Examples.started)))
   <= clock (env (Conversation.entering_finally
                    [Examples.hello] Examples.unreachable Examples.started))
      + _throttle_time (obj Examples.started)
      + Z.of_N (oversleep Examples.unreachable))%Z.
Proof.
  apply (throttle_delay_is_bounded [Examples.hello] Examples.unreachable
           Examples.started "").
  - vm_compute. reflexivity.
  - vm_compute. discriminate.
  - vm_compute. discriminate.
Defined.

End FormatMore.
